(** * Invoice manager: a shallow embedding of the Express back end

    The development follows the token-protected server (the file whose
    header reads "Enhanced server.js with security and production
    features") route by route, and, in [Module Legacy], the earlier
    unauthenticated server of [express.js].

    Modelling conventions.
    - The three JSON files are the persistent state; a handler is a
      computation in a state monad over the disk that also records every
      [readJSONFile] / [writeJSONFile] it performs.
    - JavaScript numbers are IEEE 754 doubles.  The numbers that take part
      in arithmetic are the integer-valued ones here (amounts in minor
      units), and every sum and difference is rounded as a double is; a
      numeric field read from a file or a body may also be absent or
      [null], and arithmetic may produce a value that is not a finite
      number.  Amounts with a fractional part are outside the model.
    - Request bodies are typed: each key the handlers or validators look at
      is a field of [Body].  Other keys are carried along by the object
      spread and never read, so they are left out.
    - Library functions (bcryptjs, jsonwebtoken, express-validator,
      [parseInt]) are the fields of the class [Libs]; what is assumed of
      them is stated where it is used.  [Module Sample] gives stand-ins to
      run the model on concrete requests.
    - Rate limiting, logging, compression, CORS and static files never touch
      the three collections and are not modelled; neither is a failing
      [fs.writeFile]. *)

From Stdlib Require Import ZArith List String Ascii Bool Lia DecimalString.
Import ListNotations.
Local Open Scope string_scope.
Local Open Scope Z_scope.

(** ** JavaScript numeric values *)

(** What a numeric property can evaluate to.  [Undefined] is an absent
    key.  [Num z] is the double whose value is the integer [z].  [NaN]
    stands for every number that is not finite: NaN itself and the two
    infinities.  [JSON.stringify] writes each of them as [null], in a file
    as in an answer, and a sum or a difference with one of them as operand
    is one of them again; the one test that would tell them apart,
    [v || 0], is applied to fields read from a file only. *)
Inductive jsnum : Type :=
| Undefined
| Null
| Num (z : Z)
| NaN.

(** 2^53: up to it (in absolute value) every integer is a double. *)
Definition two53 : Z := 9007199254740992.

(** The double nearest to the integer [n], as IEEE 754 rounds (to nearest,
    ties to the even significand).  Between 2^k and 2^(k+1), from k = 53
    on, two neighbouring doubles are 2^(k-52) apart. *)
Definition round_double (n : Z) : Z :=
  if Z.abs n <=? two53 then n
  else
    let ulp := 2 ^ (Z.log2 (Z.abs n) - 52) in
    let q := Z.abs n / ulp in
    let r := Z.abs n mod ulp in
    let q' := if 2 * r <? ulp then q
              else if ulp <? 2 * r then q + 1
              else if Z.even q then q else q + 1 in
    Z.sgn n * (q' * ulp).

(** The double an operation returns when its exact result is the integer
    [n]: [n] rounded, or an infinity when that reaches 2^1024. *)
Definition double_of (n : Z) : jsnum :=
  let d := round_double n in
  if Z.log2 (Z.abs d) <? 1024 then Num d else NaN.

(** [ToNumber]: [None] stands for a number that is not finite. *)
Definition to_number (v : jsnum) : option Z :=
  match v with
  | Undefined => None
  | Null => Some 0
  | Num z => Some z
  | NaN => None
  end.

(** [a + b] and [a - b] on numeric operands: the exact result, rounded. *)
Definition js_add (a b : jsnum) : jsnum :=
  match to_number a, to_number b with
  | Some x, Some y => double_of (x + y)
  | _, _ => NaN
  end.

Definition js_sub (a b : jsnum) : jsnum :=
  match to_number a, to_number b with
  | Some x, Some y => double_of (x - y)
  | _, _ => NaN
  end.

(** [v++] and [v--] (the value stored back). *)
Definition js_incr (v : jsnum) : jsnum := js_add v (Num 1).
Definition js_decr (v : jsnum) : jsnum := js_sub v (Num 1).

(** [v || 0]: every falsy value gives 0.  It is applied to fields read from
    a file, which holds no infinity. *)
Definition or0 (v : jsnum) : Z :=
  match v with
  | Num z => z
  | _ => 0
  end.

(** [JSON.stringify] writes NaN and the infinities as [null] (and drops
    absent keys). *)
Definition stringify_num (v : jsnum) : jsnum :=
  match v with
  | NaN => Null
  | _ => v
  end.

(** [a === b] on an optional integer property: two absent values are equal. *)
Definition optZ_eqb (a b : option Z) : bool :=
  match a, b with
  | Some x, Some y => x =? y
  | None, None => true
  | _, _ => false
  end.

(** ** Records of the three collections *)

Record LineItem : Type := mkLineItem {
  li_description : string;
  li_quantity : Z;
  li_rate : Z
}.

Record User : Type := mkUser {
  u_id : option Z;
  u_name : string;
  u_email : string;
  u_password : string;
  u_contactNumber : string;
  u_address : string;
  u_createdAt : Z
}.

Record Client : Type := mkClient {
  c_id : Z;
  c_userId : option Z;
  c_name : string;
  c_email : string;
  c_address : string;
  c_invoiceCount : jsnum;
  c_totalPaid : jsnum;
  c_createdAt : Z
}.

Record Invoice : Type := mkInvoice {
  i_id : Z;
  i_userId : option Z;
  i_clientId : Z;
  i_freelancerName : string;
  i_freelancerEmail : string;
  i_freelancerAddress : string;
  i_taxPercent : Z;
  i_taxAmount : jsnum;
  i_lineItems : list LineItem;
  i_total : jsnum;
  i_createdAt : Z
}.

(** Serialisation of a record, as far as it changes the value read back. *)
Definition stringify_client (c : Client) : Client :=
  mkClient (c_id c) (c_userId c) (c_name c) (c_email c) (c_address c)
           (stringify_num (c_invoiceCount c)) (stringify_num (c_totalPaid c))
           (c_createdAt c).

Definition stringify_invoice (i : Invoice) : Invoice :=
  mkInvoice (i_id i) (i_userId i) (i_clientId i) (i_freelancerName i)
            (i_freelancerEmail i) (i_freelancerAddress i) (i_taxPercent i)
            (stringify_num (i_taxAmount i)) (i_lineItems i)
            (stringify_num (i_total i)) (i_createdAt i).

(** ** The disk and the effect monad *)

Inductive File : Type := CLIENTS_FILE | INVOICES_FILE | USERS_FILE.

Definition contents (f : File) : Type :=
  match f with
  | CLIENTS_FILE => list Client
  | INVOICES_FILE => list Invoice
  | USERS_FILE => list User
  end.

(** A file that is missing or does not parse is [None]. *)
Record Store : Type := mkStore {
  clients_file : option (list Client);
  invoices_file : option (list Invoice);
  users_file : option (list User)
}.

Inductive Access : Type :=
| Read (f : File)
| Write (f : File).

Record World : Type := mkWorld {
  disk : Store;
  trace : list Access
}.

Definition M (A : Type) : Type := World -> A * World.

Definition ret {A} (a : A) : M A := fun w => (a, w).

Definition bind {A B} (c : M A) (k : A -> M B) : M B :=
  fun w => let (a, w') := c w in k a w'.

Declare Scope io_scope.
Delimit Scope io_scope with io.
Notation "x <- c ;; k" := (bind c (fun x => k))
  (at level 61, c at next level, right associativity) : io_scope.
Notation "c ;;; k" := (bind c (fun _ => k))
  (at level 61, right associativity) : io_scope.
Local Open Scope io_scope.

Definition load (f : File) (s : Store) : contents f :=
  match f return contents f with
  | CLIENTS_FILE => match clients_file s with Some l => l | None => [] end
  | INVOICES_FILE => match invoices_file s with Some l => l | None => [] end
  | USERS_FILE => match users_file s with Some l => l | None => [] end
  end.

Definition save (f : File) : contents f -> Store -> Store :=
  match f return contents f -> Store -> Store with
  | CLIENTS_FILE => fun l s =>
      mkStore (Some (map stringify_client l)) (invoices_file s) (users_file s)
  | INVOICES_FILE => fun l s =>
      mkStore (clients_file s) (Some (map stringify_invoice l)) (users_file s)
  | USERS_FILE => fun l s =>
      mkStore (clients_file s) (invoices_file s) (Some l)
  end.

(** [readJSONFile]: the parsed array, or [[]] when reading or parsing fails. *)
Definition readJSONFile (f : File) : M (contents f) :=
  fun w => (load f (disk w), mkWorld (disk w) (trace w ++ [Read f])%list).

(** [writeJSONFile]: replaces the whole file. *)
Definition writeJSONFile (f : File) (data : contents f) : M unit :=
  fun w => (tt, mkWorld (save f data (disk w)) (trace w ++ [Write f])%list).

Definition is_write (a : Access) : bool :=
  match a with Write _ => true | Read _ => false end.

(** ** Requests and responses *)

Inductive Method : Type := GET | POST | DELETE | PUT.

Definition Method_eqb (a b : Method) : bool :=
  match a, b with
  | GET, GET | POST, POST | DELETE, DELETE | PUT, PUT => true
  | _, _ => false
  end.

(** The keys of [req.body] that some handler or validator reads. [b_id] is
    a key [id] sent by the client, which the object spread copies over the
    computed one. *)
Record Body : Type := mkBody {
  b_id : option Z;
  b_name : string;
  b_email : string;
  b_password : string;
  b_contactNumber : string;
  b_address : string;
  b_freelancerName : string;
  b_freelancerEmail : string;
  b_freelancerAddress : string;
  b_clientId : Z;
  b_taxPercent : Z;
  b_taxAmount : jsnum;
  b_lineItems : list LineItem;
  b_total : jsnum
}.

(** The payload of a session token: [{ id, email, iat, exp }], in seconds. *)
Record Claims : Type := mkClaims {
  cl_id : option Z;
  cl_email : string;
  cl_iat : Z;
  cl_exp : Z
}.

(** [url] is the request path cut at its slashes, in lower case (Express
    matches paths case-insensitively); [user] is [req.user];
    [validation_errors] are the fields express-validator has rejected. *)
Record Request : Type := mkRequest {
  method : Method;
  url : list string;
  authorization : option string;
  body : Body;
  user : option Claims;
  validation_errors : list string
}.

Definition set_user (req : Request) (c : Claims) : Request :=
  mkRequest (method req) (url req) (authorization req) (body req) (Some c)
            (validation_errors req).

Definition set_validated (req : Request) (b : Body) (errs : list string) : Request :=
  mkRequest (method req) (url req) (authorization req) b (user req)
            (validation_errors req ++ errs)%list.

Record UserView : Type := mkUserView {
  uv_id : option Z;
  uv_email : string;
  uv_name : string
}.

Record ClientSummary : Type := mkClientSummary {
  cs_name : string;
  cs_email : string;
  cs_invoiceCount : Z;
  cs_totalPaid : Z
}.

Record Stats : Type := mkStats {
  totalClients : nat;
  totalInvoices : nat;
  totalTax : jsnum;
  totalRevenue : jsnum;
  clientSummary : list ClientSummary
}.

(** The JSON documents the handlers send. *)
Inductive Json : Type :=
| J_error (msg : string)
| J_validation (details : list string)
| J_session (token : string) (u : UserView)
| J_success
| J_message (success : bool) (message : string)
| J_clients (l : list Client)
| J_client (c : Client)
| J_invoices (l : list Invoice)
| J_invoice (i : Invoice)
| J_stats (s : Stats)
| J_health (timestamp : Z)
| J_page.

Record Response : Type := mkResponse {
  status : Z;
  json : Json
}.

(** A middleware either answers or calls [next()] with the request it may
    have changed. *)
Inductive Outcome : Type :=
| Next (req : Request)
| Done (res : Response).

(** The clock (seconds) and the salt bcrypt draws for this request. *)
Record Env : Type := mkEnv {
  now : Z;
  salt : string
}.

(** ** Library functions the server calls *)

Class Libs : Type := mkLibs {
  (** [process.env.JWT_SECRET || 'fallback-secret-change-in-production'] *)
  JWT_SECRET : string;
  parseInt : string -> option Z;
  (** bcryptjs: [hash password rounds] with the salt drawn, and [compare] *)
  bcrypt_hash : string -> string -> Z -> string;
  bcrypt_compare : string -> string -> bool;
  (** jsonwebtoken: serialise and sign claims; parse and check a signature *)
  jwt_encode : Claims -> string -> string;
  jwt_decode : string -> string -> option Claims;
  (** express-validator *)
  trim : string -> string;
  escape : string -> string;
  isEmail : string -> bool;
  normalizeEmail : string -> string;
  isMobilePhone : string -> bool
}.

(** ** Array helpers *)

(** [obj = arr.find(p); if (obj) { mutate obj }]: the first match is changed
    in place, inside the array. *)
Fixpoint update_first {A} (p : A -> bool) (f : A -> A) (l : list A) : list A :=
  match l with
  | [] => []
  | x :: r => if p x then f x :: r else x :: update_first p f r
  end.

(** [s.split(c)] *)
Fixpoint split_on (c : ascii) (s : string) : list string :=
  match s with
  | EmptyString => [EmptyString]
  | String a r =>
      if Ascii.eqb a c then EmptyString :: split_on c r
      else match split_on c r with
           | [] => [String a EmptyString]
           | w :: ws => String a w :: ws
           end
  end.

Definition len (s : string) : Z := Z.of_nat (String.length s).

(** [s.toLowerCase()] on ASCII letters: two strings differ only in letter
    case when their images are equal. *)
Definition lower_ascii (a : ascii) : ascii :=
  let n := nat_of_ascii a in
  if (Nat.leb 65 n && Nat.leb n 90)%bool then ascii_of_nat (n + 32) else a.

Fixpoint toLowerCase (s : string) : string :=
  match s with
  | EmptyString => EmptyString
  | String a r => String (lower_ascii a) (toLowerCase r)
  end.

Definition between (lo hi x : Z) : bool := (lo <=? x) && (x <=? hi).

Fixpoint prefix_of (p l : list string) : bool :=
  match p, l with
  | [], _ => true
  | x :: p', y :: l' => String.eqb x y && prefix_of p' l'
  | _ :: _, [] => false
  end.

Fixpoint list_string_eqb (a b : list string) : bool :=
  match a, b with
  | [], [] => true
  | x :: a', y :: b' => String.eqb x y && list_string_eqb a' b'
  | _, _ => false
  end.

(** ** The server *)

Section Server.
Context {L : Libs}.

Definition Handler : Type := Env -> Request -> M Outcome.

Definition send (st : Z) (j : Json) : M Outcome := ret (Done (mkResponse st j)).

(** *** Session tokens *)

(** ['24h'] in seconds. *)
Definition expiresIn : Z := 24 * 60 * 60.

Inductive JwtError : Type := JsonWebTokenError | TokenExpiredError.

(** [jwt.sign(payload, secret, { expiresIn })] at time [t]. *)
Definition jwt_sign (id : option Z) (email : string) (secret : string)
    (expires : Z) (t : Z) : string :=
  jwt_encode (mkClaims id email t (t + expires)) secret.

(** [jwt.verify(token, secret)] at time [t]: a token that does not parse or
    whose signature does not match is refused, then one whose [exp] is
    reached. *)
Definition jwt_verify (token secret : string) (t : Z) : JwtError + Claims :=
  match jwt_decode token secret with
  | None => inl JsonWebTokenError
  | Some c => if cl_exp c <=? t then inl TokenExpiredError else inr c
  end.

(** [authHeader && authHeader.split(' ')[1]] *)
Definition bearer (h : option string) : option string :=
  match h with
  | None => None
  | Some a => nth_error (split_on " "%char a) 1
  end.

Definition authenticateToken : Handler := fun env req =>
  match bearer (authorization req) with
  | None | Some EmptyString => send 401 (J_error "Access token required")
  | Some token =>
      match jwt_verify token JWT_SECRET (now env) with
      | inl _ => send 403 (J_error "Invalid or expired token")
      | inr u => ret (Next (set_user req u))
      end
  end.

(** *** Validation chains *)

Definition check (ok : bool) (field : string) : list string :=
  if ok then [] else [field].

(** Each chain is given by the fields it rejects and the body its
    sanitizers leave in [req.body]; the middleware records both. *)
Definition validated (errors : Body -> list string) (sanitized : Body -> Body)
  : Handler := fun _ req =>
  ret (Next (set_validated req (sanitized (body req)) (errors (body req)))).

Definition validateClient_errors (b : Body) : list string :=
  (check (between 2 100 (len (trim (b_name b)))) "name" ++
   check (isEmail (b_email b)) "email" ++
   check (between 5 500 (len (trim (b_address b)))) "address")%list.

Definition validateClient_body (b : Body) : Body :=
  mkBody (b_id b) (escape (trim (b_name b))) (normalizeEmail (b_email b))
         (b_password b) (b_contactNumber b) (escape (trim (b_address b)))
         (b_freelancerName b) (b_freelancerEmail b) (b_freelancerAddress b)
         (b_clientId b) (b_taxPercent b) (b_taxAmount b) (b_lineItems b)
         (b_total b).

Definition validateClient : Handler :=
  validated validateClient_errors validateClient_body.

Definition validateInvoice_errors (b : Body) : list string :=
  (check (between 2 100 (len (trim (b_freelancerName b)))) "freelancerName" ++
   check (isEmail (b_freelancerEmail b)) "freelancerEmail" ++
   check (between 5 500 (len (trim (b_freelancerAddress b))))
         "freelancerAddress" ++
   check (1 <=? b_clientId b) "clientId" ++
   check (between 0 100 (b_taxPercent b)) "taxPercent" ++
   check (1 <=? Z.of_nat (List.length (b_lineItems b))) "lineItems")%list.

Definition validateInvoice_body (b : Body) : Body :=
  mkBody (b_id b) (b_name b) (b_email b) (b_password b) (b_contactNumber b)
         (b_address b) (escape (trim (b_freelancerName b)))
         (normalizeEmail (b_freelancerEmail b))
         (escape (trim (b_freelancerAddress b)))
         (b_clientId b) (b_taxPercent b) (b_taxAmount b) (b_lineItems b)
         (b_total b).

Definition validateInvoice : Handler :=
  validated validateInvoice_errors validateInvoice_body.

Definition validateLogin_errors (b : Body) : list string :=
  (check (isEmail (b_email b)) "email" ++
   check (6 <=? len (b_password b)) "password")%list.

Definition validateLogin_body (b : Body) : Body :=
  mkBody (b_id b) (b_name b) (normalizeEmail (b_email b)) (b_password b)
         (b_contactNumber b) (b_address b) (b_freelancerName b)
         (b_freelancerEmail b) (b_freelancerAddress b) (b_clientId b)
         (b_taxPercent b) (b_taxAmount b) (b_lineItems b) (b_total b).

Definition validateLogin : Handler :=
  validated validateLogin_errors validateLogin_body.

Definition validateRegister_errors (b : Body) : list string :=
  (check (between 2 100 (len (trim (b_name b)))) "name" ++
   check (isEmail (b_email b)) "email" ++
   check (6 <=? len (b_password b)) "password" ++
   check (isMobilePhone (b_contactNumber b)) "contactNumber" ++
   check (between 5 500 (len (trim (b_address b)))) "address")%list.

Definition validateRegister_body (b : Body) : Body :=
  mkBody (b_id b) (escape (trim (b_name b))) (normalizeEmail (b_email b))
         (b_password b) (b_contactNumber b) (escape (trim (b_address b)))
         (b_freelancerName b) (b_freelancerEmail b) (b_freelancerAddress b)
         (b_clientId b) (b_taxPercent b) (b_taxAmount b) (b_lineItems b)
         (b_total b).

Definition validateRegister : Handler :=
  validated validateRegister_errors validateRegister_body.

Definition handleValidationErrors : Handler := fun _ req =>
  match validation_errors req with
  | [] => ret (Next req)
  | errs => send 400 (J_validation errs)
  end.

(** The middleware and handler arguments of one [app.METHOD(path, ...)]. *)
Fixpoint chain (hs : list Handler) : Handler := fun env req =>
  match hs with
  | [] => ret (Next req)
  | h :: rest =>
      o <- h env req ;;
      match o with
      | Next req' => chain rest env req'
      | Done res => ret (Done res)
      end
  end.

(** *** Authentication routes *)

Definition same_email (email : string) (u : User) : bool :=
  String.eqb (u_email u) email.

Definition post_api_login : Handler := fun env req =>
  let email := b_email (body req) in
  let password := b_password (body req) in
  users <- readJSONFile USERS_FILE ;;
  match find (same_email email) users with
  | None => send 401 (J_error "Invalid credentials")
  | Some user =>
      if negb (bcrypt_compare password (u_password user))
      then send 401 (J_error "Invalid credentials")
      else
        let token :=
          jwt_sign (u_id user) (u_email user) JWT_SECRET expiresIn (now env) in
        send 200 (J_session token
                    (mkUserView (u_id user) (u_email user) (u_name user)))
  end.

Definition post_api_register : Handler := fun env req =>
  let b := body req in
  users <- readJSONFile USERS_FILE ;;
  match find (same_email (b_email b)) users with
  | Some _ => send 409 (J_error "User already exists")
  | None =>
      let hashedPassword := bcrypt_hash (salt env) (b_password b) 10 in
      let newUser :=
        mkUser (Some (Z.of_nat (List.length users) + 1)) (b_name b) (b_email b)
               hashedPassword (b_contactNumber b) (b_address b) (now env) in
      writeJSONFile USERS_FILE (users ++ [newUser])%list ;;;
      let token :=
        jwt_sign (u_id newUser) (u_email newUser) JWT_SECRET expiresIn (now env) in
      send 201 (J_session token
                  (mkUserView (u_id newUser) (u_email newUser) (u_name newUser)))
  end.

(** *** Client routes

    The handlers below run behind [authenticateToken]; [u] is [req.user]. *)

Definition owned_client (u : Claims) (c : Client) : bool :=
  optZ_eqb (c_userId c) (cl_id u).

Definition owned_invoice (u : Claims) (i : Invoice) : bool :=
  optZ_eqb (i_userId i) (cl_id u).

(** [x === parseInt(s)]: nothing equals NaN. *)
Definition id_is (n : option Z) (x : Z) : bool :=
  match n with
  | Some k => x =? k
  | None => false
  end.

(** [req.params.id] of a route [/api/<collection>/:id]. *)
Definition param_id (req : Request) : string := nth 2 (url req) "".

Definition get_api_clients : Handler := fun _ _ =>
  clients <- readJSONFile CLIENTS_FILE ;;
  send 200 (J_clients clients).

Definition post_api_clients (u : Claims) : Handler := fun env req =>
  let b := body req in
  clients <- readJSONFile CLIENTS_FILE ;;
  let newClient :=
    mkClient (match b_id b with
              | Some i => i
              | None => Z.of_nat (List.length clients) + 1
              end)
             (cl_id u) (b_name b) (b_email b) (b_address b)
             (Num 0) (Num 0) (now env) in
  writeJSONFile CLIENTS_FILE (clients ++ [newClient])%list ;;;
  send 201 (J_client newClient).

Definition delete_api_clients_id (u : Claims) : Handler := fun _ req =>
  clients <- readJSONFile CLIENTS_FILE ;;
  let clientId := parseInt (param_id req) in
  let clientExists :=
    existsb (fun c => id_is clientId (c_id c) && owned_client u c) clients in
  if negb clientExists then send 404 (J_error "Client not found")
  else
    writeJSONFile CLIENTS_FILE
      (filter (fun c => negb (id_is clientId (c_id c))) clients) ;;;
    send 200 J_success.

(** *** Invoice routes *)

Definition get_api_invoices (u : Claims) : Handler := fun _ _ =>
  invoices <- readJSONFile INVOICES_FILE ;;
  send 200 (J_invoices (filter (owned_invoice u) invoices)).

Definition invoice_created (total : jsnum) (c : Client) : Client :=
  mkClient (c_id c) (c_userId c) (c_name c) (c_email c) (c_address c)
           (js_incr (c_invoiceCount c)) (js_add (c_totalPaid c) total)
           (c_createdAt c).

Definition invoice_deleted (total : jsnum) (c : Client) : Client :=
  mkClient (c_id c) (c_userId c) (c_name c) (c_email c) (c_address c)
           (js_decr (c_invoiceCount c)) (js_sub (c_totalPaid c) total)
           (c_createdAt c).

(** [const client = clients.find(p); if (client) { ...; write clients }] *)
Definition update_client_stats (p : Client -> bool) (f : Client -> Client)
    (clients : list Client) : M unit :=
  match find p clients with
  | Some _ => writeJSONFile CLIENTS_FILE (update_first p f clients)
  | None => ret tt
  end.

Definition post_api_invoices (u : Claims) : Handler := fun env req =>
  let b := body req in
  invoices <- readJSONFile INVOICES_FILE ;;
  clients <- readJSONFile CLIENTS_FILE ;;
  let newInvoice :=
    mkInvoice (match b_id b with
               | Some i => i
               | None => Z.of_nat (List.length invoices) + 1
               end)
              (cl_id u) (b_clientId b) (b_freelancerName b)
              (b_freelancerEmail b) (b_freelancerAddress b) (b_taxPercent b)
              (b_taxAmount b) (b_lineItems b) (b_total b) (now env) in
  writeJSONFile INVOICES_FILE (invoices ++ [newInvoice])%list ;;;
  update_client_stats
    (fun c => (c_id c =? i_clientId newInvoice) && owned_client u c)
    (invoice_created (i_total newInvoice)) clients ;;;
  send 201 (J_invoice newInvoice).

Definition delete_api_invoices_id (u : Claims) : Handler := fun _ req =>
  invoices <- readJSONFile INVOICES_FILE ;;
  clients <- readJSONFile CLIENTS_FILE ;;
  let invoiceId := parseInt (param_id req) in
  match find (fun inv => id_is invoiceId (i_id inv) && owned_invoice u inv)
             invoices with
  | None => send 404 (J_error "Invoice not found")
  | Some invoice =>
      update_client_stats
        (fun c => c_id c =? i_clientId invoice)
        (invoice_deleted (i_total invoice)) clients ;;;
      writeJSONFile INVOICES_FILE
        (filter (fun inv => negb (id_is invoiceId (i_id inv))) invoices) ;;;
      send 200 J_success
  end.

(** *** Dashboard *)

Definition summary (c : Client) : ClientSummary :=
  mkClientSummary (c_name c) (c_email c)
                  (or0 (c_invoiceCount c)) (or0 (c_totalPaid c)).

Definition dashboard_stats (userClients : list Client)
    (userInvoices : list Invoice) : Stats :=
  mkStats (List.length userClients) (List.length userInvoices)
          (fold_left (fun sum inv => js_add sum (Num (or0 (i_taxAmount inv))))
                     userInvoices (Num 0))
          (fold_left (fun sum inv => js_add sum (Num (or0 (i_total inv))))
                     userInvoices (Num 0))
          (map summary userClients).

Definition get_api_dashboard (u : Claims) : Handler := fun _ _ =>
  clients <- readJSONFile CLIENTS_FILE ;;
  invoices <- readJSONFile INVOICES_FILE ;;
  let userClients := filter (owned_client u) clients in
  let userInvoices := filter (owned_invoice u) invoices in
  send 200 (J_stats (dashboard_stats userClients userInvoices)).

(** *** The application: layers in the order they are registered *)

Record Layer : Type := mkLayer {
  applies : Request -> bool;
  run : Handler
}.

(** [app.use(path, h)]: every method, every url under [path]. *)
Definition use (path : list string) (h : Handler) : Layer :=
  mkLayer (fun req => prefix_of path (url req)) h.

(** [app.METHOD(path, h)] *)
Definition route (m : Method) (path : list string) (h : Handler) : Layer :=
  mkLayer (fun req => Method_eqb (method req) m
                      && list_string_eqb path (url req)) h.

(** [app.METHOD(path + '/:id', h)] *)
Definition route_id (m : Method) (path : list string) (h : Handler) : Layer :=
  mkLayer (fun req => Method_eqb (method req) m
                      && Nat.eqb (List.length (url req)) (S (List.length path))
                      && prefix_of path (url req)) h.

(** A handler that reads [req.user], which [authenticateToken] has set
    whenever the handler is reached through [app].  Without it [req.user.id]
    throws and the handler's [catch] answers 500 with its own message; that
    case never arises behind the token check, and the reads that would
    precede the throw are left out. *)
Definition as_user (failure : string) (h : Claims -> Handler) : Handler :=
  fun env req =>
    match user req with
    | Some u => h u env req
    | None => send 500 (J_error failure)
    end.

Definition get_api_health : Handler := fun env _ =>
  send 200 (J_health (now env)).

Definition get_root : Handler := fun _ _ => send 200 J_page.

Definition not_found : Handler := fun _ _ =>
  send 404 (J_error "Route not found").

Definition app : list Layer :=
  [ route POST ["api"; "login"]
      (chain [validateLogin; handleValidationErrors; post_api_login]);
    route POST ["api"; "register"]
      (chain [validateRegister; handleValidationErrors; post_api_register]);
    use ["api"; "clients"] authenticateToken;
    use ["api"; "invoices"] authenticateToken;
    use ["api"; "dashboard"] authenticateToken;
    route GET ["api"; "clients"] get_api_clients;
    route POST ["api"; "clients"]
      (chain [validateClient; handleValidationErrors;
              as_user "Failed to create client" post_api_clients]);
    route_id DELETE ["api"; "clients"]
      (as_user "Failed to delete client" delete_api_clients_id);
    route GET ["api"; "invoices"]
      (as_user "Failed to fetch invoices" get_api_invoices);
    route POST ["api"; "invoices"]
      (chain [validateInvoice; handleValidationErrors;
              as_user "Failed to create invoice" post_api_invoices]);
    route_id DELETE ["api"; "invoices"]
      (as_user "Failed to delete invoice" delete_api_invoices_id);
    route GET ["api"; "dashboard"]
      (as_user "Failed to fetch dashboard data" get_api_dashboard);
    route GET ["api"; "health"] get_api_health;
    route GET [] get_root;
    use [] not_found ].

(** Express walks the stack; a layer that calls [next()] hands the request
    to the layers after it. *)
Fixpoint dispatch (stack : list Layer) (env : Env) (req : Request) : M Response :=
  match stack with
  | [] => ret (mkResponse 404 (J_error "Route not found"))
  | l :: rest =>
      if applies l req then
        o <- run l env req ;;
        match o with
        | Next req' => dispatch rest env req'
        | Done res => ret res
        end
      else dispatch rest env req
  end.

Definition serve (env : Env) (req : Request) : M Response :=
  dispatch app env req.

End Server.

(** ** The earlier server ([express.js])

    No tokens, no hashing, no validation, no owner on the records: the same
    routes over the same three files. *)

Module Legacy.
Section Server.
Context {L : Libs}.

Definition Handler : Type := Env -> Request -> M Outcome.

Definition post_api_login : Handler := fun _ req =>
  let email := b_email (body req) in
  let password := b_password (body req) in
  users <- readJSONFile USERS_FILE ;;
  match find (fun u => String.eqb (u_email u) email
                       && String.eqb (u_password u) password) users with
  | Some _ => send 200 (J_message true "Login successful")
  | None => send 401 (J_message false "Invalid credentials")
  end.

Definition post_api_register : Handler := fun _ req =>
  let b := body req in
  users <- readJSONFile USERS_FILE ;;
  match find (same_email (b_email b)) users with
  | Some _ => send 400 (J_message false "User already exists")
  | None =>
      writeJSONFile USERS_FILE
        (users ++ [mkUser None (b_name b) (b_email b) (b_password b)
                          (b_contactNumber b) (b_address b) 0])%list ;;;
      send 200 (J_message true "Registration successful")
  end.

Definition get_api_clients : Handler := fun _ _ =>
  clients <- readJSONFile CLIENTS_FILE ;;
  send 200 (J_clients clients).

Definition post_api_clients : Handler := fun env req =>
  let b := body req in
  clients <- readJSONFile CLIENTS_FILE ;;
  let newClient :=
    mkClient (match b_id b with
              | Some i => i
              | None => Z.of_nat (List.length clients) + 1
              end)
             None (b_name b) (b_email b) (b_address b)
             (Num 0) (Num 0) (now env) in
  writeJSONFile CLIENTS_FILE (clients ++ [newClient])%list ;;;
  send 200 (J_client newClient).

Definition delete_api_clients_id : Handler := fun _ req =>
  clients <- readJSONFile CLIENTS_FILE ;;
  let clientId := parseInt (param_id req) in
  writeJSONFile CLIENTS_FILE
    (filter (fun c => negb (id_is clientId (c_id c))) clients) ;;;
  send 200 J_success.

Definition get_api_invoices : Handler := fun _ _ =>
  invoices <- readJSONFile INVOICES_FILE ;;
  send 200 (J_invoices invoices).

Definition post_api_invoices : Handler := fun env req =>
  let b := body req in
  invoices <- readJSONFile INVOICES_FILE ;;
  clients <- readJSONFile CLIENTS_FILE ;;
  let newInvoice :=
    mkInvoice (match b_id b with
               | Some i => i
               | None => Z.of_nat (List.length invoices) + 1
               end)
              None (b_clientId b) (b_freelancerName b)
              (b_freelancerEmail b) (b_freelancerAddress b) (b_taxPercent b)
              (b_taxAmount b) (b_lineItems b) (b_total b) (now env) in
  writeJSONFile INVOICES_FILE (invoices ++ [newInvoice])%list ;;;
  update_client_stats
    (fun c => c_id c =? i_clientId newInvoice)
    (invoice_created (i_total newInvoice)) clients ;;;
  send 200 (J_invoice newInvoice).

Definition delete_api_invoices_id : Handler := fun _ req =>
  invoices <- readJSONFile INVOICES_FILE ;;
  clients <- readJSONFile CLIENTS_FILE ;;
  let invoiceId := parseInt (param_id req) in
  match find (fun inv => id_is invoiceId (i_id inv)) invoices with
  | Some invoice =>
      update_client_stats
        (fun c => c_id c =? i_clientId invoice)
        (invoice_deleted (i_total invoice)) clients
  | None => ret tt
  end ;;;
  writeJSONFile INVOICES_FILE
    (filter (fun inv => negb (id_is invoiceId (i_id inv))) invoices) ;;;
  send 200 J_success.

Definition get_api_dashboard : Handler := fun _ _ =>
  clients <- readJSONFile CLIENTS_FILE ;;
  invoices <- readJSONFile INVOICES_FILE ;;
  send 200 (J_stats (dashboard_stats clients invoices)).

Definition app : list Layer :=
  [ route POST ["api"; "login"] post_api_login;
    route POST ["api"; "register"] post_api_register;
    route GET ["api"; "clients"] get_api_clients;
    route POST ["api"; "clients"] post_api_clients;
    route_id DELETE ["api"; "clients"] delete_api_clients_id;
    route GET ["api"; "invoices"] get_api_invoices;
    route POST ["api"; "invoices"] post_api_invoices;
    route_id DELETE ["api"; "invoices"] delete_api_invoices_id;
    route GET ["api"; "dashboard"] get_api_dashboard;
    route GET [] get_root ].

Definition serve (env : Env) (req : Request) : M Response :=
  dispatch app env req.

End Server.
End Legacy.

(** ** Stand-ins for the libraries, to run the model on concrete requests *)

Module Sample.

Definition show (z : Z) : string := NilZero.string_of_int (Z.to_int z).

Definition read (s : string) : option Z :=
  option_map Z.of_int (NilZero.int_of_string s).

Definition show_id (o : option Z) : string :=
  match o with
  | Some z => show z
  | None => ""
  end.

(** A toy digest: a polynomial checksum of the salt and the password. *)
Fixpoint checksum (acc : Z) (s : string) : Z :=
  match s with
  | EmptyString => acc
  | String a r => checksum ((acc * 31 + Z.of_nat (nat_of_ascii a)) mod 1000003) r
  end.

Definition hash (salt password : string) (rounds : Z) : string :=
  "$2a$" ++ show rounds ++ "$" ++ salt ++ "$"
        ++ show (checksum (checksum 7 salt) password).

Definition compare (password hashed : string) : bool :=
  match split_on "$"%char hashed with
  | [_; _; rounds; salt; _] =>
      match read rounds with
      | Some r => String.eqb hashed (hash salt password r)
      | None => false
      end
  | _ => false
  end.

(** A toy token: the claims in clear, closed by the secret. *)
Definition encode (c : Claims) (secret : string) : string :=
  show_id (cl_id c) ++ "|" ++ cl_email c ++ "|" ++ show (cl_iat c) ++ "|"
          ++ show (cl_exp c) ++ "|" ++ secret.

Definition decode (token secret : string) : option Claims :=
  match split_on "|"%char token with
  | [i; e; a; x; s] =>
      if String.eqb s secret then
        match read a, read x with
        | Some iat, Some exp => Some (mkClaims (read i) e iat exp)
        | _, _ => None
        end
      else None
  | _ => None
  end.

Fixpoint contains (c : ascii) (s : string) : bool :=
  match s with
  | EmptyString => false
  | String a r => Ascii.eqb a c || contains c r
  end.

#[export] Instance libs : Libs :=
  mkLibs "fallback-secret-change-in-production" read hash compare
         encode decode (fun s => s) (fun s => s) (contains "@"%char)
         toLowerCase (fun s => negb (String.eqb s "")).

Definition no_body : Body :=
  mkBody None "" "" "" "" "" "" "" "" 0 0 Undefined [] Undefined.

End Sample.

(** * Vocabulary of the statements *)

Section Vocabulary.
Context {L : Libs}.

(** ** Protected requests *)

(** The urls under the three mount points of [authenticateToken]. *)
Definition protected (req : Request) : bool :=
  prefix_of ["api"; "clients"] (url req)
  || prefix_of ["api"; "invoices"] (url req)
  || prefix_of ["api"; "dashboard"] (url req).

(** The seven protected operations, as requests. *)
Inductive Operation : Type :=
| ClientList
| ClientCreate
| ClientDelete (id : string)
| InvoiceList
| InvoiceCreate
| InvoiceDelete (id : string)
| Dashboard.

Definition request_of (op : Operation) (header : option string) (b : Body)
  : Request :=
  match op with
  | ClientList => mkRequest GET ["api"; "clients"] header b None []
  | ClientCreate => mkRequest POST ["api"; "clients"] header b None []
  | ClientDelete id => mkRequest DELETE ["api"; "clients"; id] header b None []
  | InvoiceList => mkRequest GET ["api"; "invoices"] header b None []
  | InvoiceCreate => mkRequest POST ["api"; "invoices"] header b None []
  | InvoiceDelete id => mkRequest DELETE ["api"; "invoices"; id] header b None []
  | Dashboard => mkRequest GET ["api"; "dashboard"] header b None []
  end.

(** The handler registered for each operation. *)
Definition handler_of (op : Operation) : Handler :=
  match op with
  | ClientList => get_api_clients
  | ClientCreate =>
      chain [validateClient; handleValidationErrors;
             as_user "Failed to create client" post_api_clients]
  | ClientDelete _ => as_user "Failed to delete client" delete_api_clients_id
  | InvoiceList => as_user "Failed to fetch invoices" get_api_invoices
  | InvoiceCreate =>
      chain [validateInvoice; handleValidationErrors;
             as_user "Failed to create invoice" post_api_invoices]
  | InvoiceDelete _ => as_user "Failed to delete invoice" delete_api_invoices_id
  | Dashboard => as_user "Failed to fetch dashboard data" get_api_dashboard
  end.

(** ** Deleting an invoice *)

Definition targets (u : Claims) (n : option Z) (inv : Invoice) : bool :=
  id_is n (i_id inv) && owned_invoice u inv.

(** ** Login, registration, tokens *)

Definition login_request (header : option string) (b : Body) : Request :=
  mkRequest POST ["api"; "login"] header b None [].

Definition register_request (header : option string) (b : Body) : Request :=
  mkRequest POST ["api"; "register"] header b None [].

(** The record [register] builds for a body and the users already there. *)
Definition new_user (env : Env) (b : Body) (users : list User) : User :=
  mkUser (Some (Z.of_nat (List.length users) + 1)) (b_name b) (b_email b)
         (bcrypt_hash (salt env) (b_password b) 10)
         (b_contactNumber b) (b_address b) (now env).

Definition set_password (b : Body) (password : string) : Body :=
  mkBody (b_id b) (b_name b) (b_email b) password (b_contactNumber b)
         (b_address b) (b_freelancerName b) (b_freelancerEmail b)
         (b_freelancerAddress b) (b_clientId b) (b_taxPercent b)
         (b_taxAmount b) (b_lineItems b) (b_total b).

(** The token [login] and [register] sign for a user at the time of [env]. *)
Definition issued (env : Env) (user : User) : string :=
  jwt_sign (u_id user) (u_email user) JWT_SECRET expiresIn (now env).

(** Its payload: issued now, expiring 24 hours (86400 s) later. *)
Definition issued_claims (env : Env) (user : User) : Claims :=
  mkClaims (u_id user) (u_email user) (now env) (now env + 86400).

(** ** Invoices and the statistics on clients *)

(** The record [POST /api/invoices] builds. *)
Definition new_invoice (env : Env) (u : Claims) (b : Body)
    (invoices : list Invoice) : Invoice :=
  mkInvoice (match b_id b with
             | Some i => i
             | None => Z.of_nat (List.length invoices) + 1
             end)
            (cl_id u) (b_clientId b) (b_freelancerName b)
            (b_freelancerEmail b) (b_freelancerAddress b) (b_taxPercent b)
            (b_taxAmount b) (b_lineItems b) (b_total b) (now env).

(** The client whose statistics a creation by [u] updates. *)
Definition billed (u : Claims) (cid : Z) (c : Client) : bool :=
  (c_id c =? cid) && owned_client u c.

(** The disk after a creation, as a function of the disk before. *)
Definition after_create (env : Env) (u : Claims) (b : Body) (s : Store) : Store :=
  let invoices := load INVOICES_FILE s in
  let clients := load CLIENTS_FILE s in
  let inv := new_invoice env u b invoices in
  let s1 := save INVOICES_FILE (invoices ++ [inv])%list s in
  match find (billed u (i_clientId inv)) clients with
  | Some _ =>
      save CLIENTS_FILE
        (update_first (billed u (i_clientId inv))
                      (invoice_created (i_total inv)) clients) s1
  | None => s1
  end.

(** Invoices whose [clientId] is [cid], their number and the sum of their
    totals. *)
Definition invoices_of (cid : Z) (l : list Invoice) : list Invoice :=
  filter (fun i => i_clientId i =? cid) l.

Definition sum_totals (l : list Invoice) : Z :=
  fold_right (fun i acc => or0 (i_total i) + acc) 0 l.

Definition count_of (cid : Z) (l : list Invoice) : Z :=
  Z.of_nat (List.length (invoices_of cid l)).

Definition paid_of (cid : Z) (l : list Invoice) : Z :=
  sum_totals (invoices_of cid l).

(** Every client record carries the count and the sum of the invoices that
    reference it. *)
Definition aggregates_hold (s : Store) : Prop :=
  forall c, In c (load CLIENTS_FILE s) ->
    c_invoiceCount c = Num (count_of (c_id c) (load INVOICES_FILE s)) /\
    c_totalPaid c = Num (paid_of (c_id c) (load INVOICES_FILE s)).

(** Creations and deletions, each by a caller whose token has passed. *)
Inductive Op : Type :=
| Create (env : Env) (u : Claims) (req : Request)
| Delete (env : Env) (u : Claims) (req : Request).

Definition step (w : World) (op : Op) : World :=
  match op with
  | Create env u req => snd (post_api_invoices u env req w)
  | Delete env u req => snd (delete_api_invoices_id u env req w)
  end.

Definition run_ops (ops : list Op) (w : World) : World :=
  fold_left step ops w.

(** A sequence of requests served one after the other. *)
Definition serve_all (env : Env) (reqs : list Request) (w : World) : World :=
  fold_left (fun w req => snd (serve env req w)) reqs w.

(** The disk after a deletion, as a function of the disk before. *)
Definition after_delete (u : Claims) (n : option Z) (s : Store) : Store :=
  let invoices := load INVOICES_FILE s in
  let clients := load CLIENTS_FILE s in
  match find (targets u n) invoices with
  | None => s
  | Some invoice =>
      let p := fun c => c_id c =? i_clientId invoice in
      let s1 :=
        match find p clients with
        | Some _ =>
            save CLIENTS_FILE
              (update_first p (invoice_deleted (i_total invoice)) clients) s
        | None => s
        end in
      save INVOICES_FILE
        (filter (fun inv => negb (id_is n (i_id inv))) invoices) s1
  end.

Definition keeps (n : option Z) (inv : Invoice) : bool :=
  negb (id_is n (i_id inv)).

(** The absolute values of the totals, added up: no sum of some of the
    totals of [l] is larger in absolute value. *)
Definition weight (l : list Invoice) : Z :=
  fold_right (fun i acc => Z.abs (or0 (i_total i)) + acc) 0 l.

(** The invoices for which doubles count and add up without rounding: the
    absolute values of the totals add up to 2^53 at most, and there are
    2^53 invoices at most. *)
Definition exact_range (l : list Invoice) : Prop :=
  weight l <= two53 /\ Z.of_nat (List.length l) <= two53.

(** A state as an undisturbed run of the server leaves it, with amounts
    that doubles represent and add up exactly. *)
Record well_formed (s : Store) : Prop := mk_well_formed {
  wf_invoice_ids : NoDup (map i_id (load INVOICES_FILE s));
  wf_client_ids : NoDup (map c_id (load CLIENTS_FILE s));
  wf_owner :
    forall i c, In i (load INVOICES_FILE s) -> In c (load CLIENTS_FILE s) ->
                i_clientId i = c_id c -> i_userId i = c_userId c;
  wf_totals :
    forall i, In i (load INVOICES_FILE s) -> exists z, i_total i = Num z;
  wf_exact : exact_range (load INVOICES_FILE s);
  wf_aggregates : aggregates_hold s
}.

(** A creation is admissible when the id it takes is not in use, its total
    is an integer, the invoices with the new one among them are still in
    the range where doubles are exact, and the client it names, if there
    is one, is the caller's.  Deletions always are. *)
Definition admissible (s : Store) (op : Op) : Prop :=
  match op with
  | Create env u req =>
      let b := body req in
      let inv := new_invoice env u b (load INVOICES_FILE s) in
      ~ In (i_id inv) (map i_id (load INVOICES_FILE s)) /\
      (exists z, b_total b = Num z) /\
      exact_range (load INVOICES_FILE s ++ [inv]) /\
      (forall c, In c (load CLIENTS_FILE s) -> c_id c = b_clientId b ->
                 c_userId c = cl_id u)
  | Delete _ _ _ => True
  end.

Fixpoint admissible_run (w : World) (ops : list Op) : Prop :=
  match ops with
  | [] => True
  | op :: rest => admissible (disk w) op /\ admissible_run (step w op) rest
  end.

Definition numeric (c : Client) : Prop :=
  exists n p, c_invoiceCount c = Num n /\ c_totalPaid c = Num p.

(** ** What serving a request may do to the world *)

(** An access to the clients or the invoices file. *)
Definition touches_data (a : Access) : bool :=
  match a with
  | Read USERS_FILE | Write USERS_FILE => false
  | _ => true
  end.

(** From [w] to [w']: the clients and invoices files are as they were and
    have been neither read nor written. *)
Definition data_untouched (w w' : World) : Prop :=
  clients_file (disk w') = clients_file (disk w) /\
  invoices_file (disk w') = invoices_file (disk w) /\
  filter touches_data (trace w') = filter touches_data (trace w).

(** From [w] to [w']: nothing has been written. *)
Definition nothing_written (w w' : World) : Prop :=
  disk w' = disk w /\
  filter is_write (trace w') = filter is_write (trace w).

(** From [w] to [w']: the user records are the earlier ones, in place,
    followed by those added since. *)
Definition users_kept (w w' : World) : Prop :=
  exists added,
    load USERS_FILE (disk w') = (load USERS_FILE (disk w) ++ added)%list.

(** The k-th user record has id k. *)
Definition users_numbered (s : Store) : Prop :=
  map u_id (load USERS_FILE s) =
  map (fun k => Some (Z.of_nat k)) (seq 1 (List.length (load USERS_FILE s))).

Definition numbering_kept (w w' : World) : Prop :=
  users_numbered (disk w) -> users_numbered (disk w').

(** A handler whose every run relates the worlds before and after by [P],
    and which hands on a request with the url and method it received. *)
Definition respects (P : World -> World -> Prop) (h : Handler) : Prop :=
  forall env req w,
    P w (snd (h env req w)) /\
    forall req', fst (h env req w) = Next req' ->
      url req' = url req /\ method req' = method req.

(** The record [POST /api/clients] builds. *)
Definition new_client (env : Env) (u : Claims) (b : Body)
    (clients : list Client) : Client :=
  mkClient (match b_id b with
            | Some i => i
            | None => Z.of_nat (List.length clients) + 1
            end)
           (cl_id u) (b_name b) (b_email b) (b_address b)
           (Num 0) (Num 0) (now env).

(** A string without a space. *)
Fixpoint spaceless (s : string) : bool :=
  match s with
  | EmptyString => true
  | String a r => negb (Ascii.eqb a " "%char) && spaceless r
  end.

End Vocabulary.

(** * A small office

    Concrete data on which the general statements are run: Alice (user 1)
    and Bob (user 2) are registered, Alice has one client. *)

Section Office.
#[local] Existing Instance Sample.libs.

Definition noon : Env := mkEnv 1000 "s4lt".

Definition alice : User :=
  mkUser (Some 1) "Alice" "alice@example.com" (Sample.hash "s4lt" "secret1" 10)
         "5551234" "1 Main Street" 900.

Definition bob : User :=
  mkUser (Some 2) "Bob" "bob@example.com" (Sample.hash "pepper" "hunter22" 10)
         "5556789" "2 Side Street" 950.

Definition acme : Client :=
  mkClient 1 (Some 1) "Acme" "a@x.com" "1 Road" (Num 0) (Num 0) 960.

Definition office : World :=
  mkWorld (mkStore (Some [acme]) (Some []) (Some [alice; bob])) [].

Definition header_of (e : Env) (u : User) : option string :=
  Some ("Bearer " ++ issued e u).

(** A valid invoice body for client [cid] with total [t] and tax 10. *)
Definition invoice_body (cid t : Z) : Body :=
  mkBody None "" "" "" "" "" "Free Lancer" "free@lancer.dev" "22 Lance Street"
         cid 10 (Num 10) [mkLineItem "Work" 1 t] (Num t).

(** The requests the two invoice handlers are run on. *)
Definition create_request (b : Body) : Request :=
  mkRequest POST ["api"; "invoices"] None b None [].

Definition delete_request (id : string) : Request :=
  mkRequest DELETE ["api"; "invoices"; id] None Sample.no_body None [].

Definition alice_claims : Claims := issued_claims noon alice.
Definition bob_claims : Claims := issued_claims noon bob.

(** Alice bills Acme 10 and 20, deletes invoice 1, bills 5 (the new invoice
    takes id 2 again, the file holding one invoice), deletes invoice 2. *)
Definition drift : list Op :=
  [ Create noon alice_claims (create_request (invoice_body 1 10));
    Create noon alice_claims (create_request (invoice_body 1 20));
    Delete noon alice_claims (delete_request "1");
    Create noon alice_claims (create_request (invoice_body 1 5));
    Delete noon alice_claims (delete_request "2") ].

(** The same five operations as HTTP requests carrying Alice's token. *)
Definition drift_requests : list Request :=
  [ request_of InvoiceCreate (header_of noon alice) (invoice_body 1 10);
    request_of InvoiceCreate (header_of noon alice) (invoice_body 1 20);
    request_of (InvoiceDelete "1") (header_of noon alice) Sample.no_body;
    request_of InvoiceCreate (header_of noon alice) (invoice_body 1 5);
    request_of (InvoiceDelete "2") (header_of noon alice) Sample.no_body ].

(** A creation and a deletion. *)
Definition bill_and_cancel : list Op :=
  [ Create noon alice_claims (create_request (invoice_body 1 100));
    Delete noon alice_claims (delete_request "1") ].

(** A second client, Bob's. *)
Definition globex : Client :=
  mkClient 2 (Some 2) "Globex" "g@x.com" "9 Avenue" (Num 0) (Num 0) 970.

Definition shared_office : World :=
  mkWorld (mkStore (Some [acme; globex]) (Some []) (Some [alice; bob])) [].

Definition register_body (name email password : string) : Body :=
  mkBody None name email password "5550000" "7 Elm Street" "" "" "" 0 0
         Undefined [] Undefined.

Definition login_body (email password : string) : Body :=
  mkBody None "" email password "" "" "" "" "" 0 0 Undefined [] Undefined.

(** One hour after [noon]: the tokens issued at noon still pass. *)
Definition one_hour_later : Env := mkEnv 4600 "p3pper".

Definition client_body (name email address : string) : Body :=
  mkBody None name email "" "" address "" "" "" 0 0 Undefined [] Undefined.

Definition carol_body : Body :=
  register_body "Carol" "Carol@Example.com" "opensesame".

(** An invoice as the invoices file holds it. *)
Definition invoice_of (id owner cid t : Z) : Invoice :=
  mkInvoice id (Some owner) cid "Free Lancer" "free@lancer.dev"
            "22 Lance Street" 10 (Num 10) [mkLineItem "Work" 1 t] (Num t) 980.

(** Alice has billed Acme 10 and 20, Bob has billed Globex 7. *)
Definition busy_office : World :=
  mkWorld
    (mkStore
       (Some [mkClient 1 (Some 1) "Acme" "a@x.com" "1 Road" (Num 2) (Num 30) 960;
              mkClient 2 (Some 2) "Globex" "g@x.com" "9 Avenue" (Num 1) (Num 7) 970])
       (Some [invoice_of 1 1 1 10; invoice_of 2 2 2 7; invoice_of 3 1 1 20])
       (Some [alice; bob]))
    [].

(** A request for a method and url no route is registered for. *)
Definition put_client : Request :=
  mkRequest PUT ["api"; "clients"; "1"] (header_of noon alice)
            (client_body "Acme Ltd" "a@x.com" "1 Road") None [].

End Office.

(** * Properties *)

Section Properties.
Context {L : Libs}.

(** Unfolds the monad and the two file operations. *)
Ltac run_io :=
  unfold bind, ret, send, readJSONFile, writeJSONFile in *; simpl in *.

(** ** Values *)

Lemma optZ_eqb_eq a b : optZ_eqb a b = true <-> a = b.
Proof.
  destruct a, b; simpl; try (split; congruence).
  rewrite Z.eqb_eq. split; congruence.
Qed.

(** ** Token check *)

Lemma authenticateToken_world env req w :
  snd (authenticateToken env req w) = w.
Proof.
  unfold authenticateToken.
  destruct (bearer (authorization req)) as [[|a t]|]; try reflexivity.
  destruct (jwt_verify _ _ _); reflexivity.
Qed.

Lemma authenticateToken_rejects env req w res :
  fst (authenticateToken env req w) = Done res ->
  res = mkResponse 401 (J_error "Access token required") \/
  res = mkResponse 403 (J_error "Invalid or expired token").
Proof.
  unfold authenticateToken.
  destruct (bearer (authorization req)) as [[|a t]|]; run_io;
    try (intros H; injection H as <-; now left).
  destruct (jwt_verify _ _ _); run_io; intros H.
  - injection H as <-. now right.
  - discriminate.
Qed.

Lemma authenticateToken_next env req w req' :
  fst (authenticateToken env req w) = Next req' ->
  exists u, req' = set_user req u.
Proof.
  unfold authenticateToken.
  destruct (bearer (authorization req)) as [[|a t]|]; run_io; try discriminate.
  destruct (jwt_verify _ _ _) as [e|u]; run_io; try discriminate.
  intros H. injection H as <-. now exists u.
Qed.

Lemma prefix_of_two a b l :
  prefix_of [a; b] l = true -> exists rest, l = a :: b :: rest.
Proof.
  destruct l as [|x [|y rest]]; simpl; try discriminate.
  - rewrite andb_false_r. discriminate.
  - rewrite andb_true_r. intros H. apply andb_prop in H as [Hx Hy].
    apply String.eqb_eq in Hx, Hy. subst. now exists rest.
Qed.

Lemma protected_url req :
  protected req = true ->
  exists coll rest,
    url req = "api" :: coll :: rest /\
    (coll = "clients" \/ coll = "invoices" \/ coll = "dashboard").
Proof.
  unfold protected. intros H.
  apply orb_prop in H as [H|H]; [apply orb_prop in H as [H|H]|];
    apply prefix_of_two in H as [rest ->]; eexists _, rest; split;
    try reflexivity; auto.
Qed.

(** ** C3: the token is checked before any collection is touched *)

Lemma serve_rejected env req w res :
  protected req = true ->
  fst (authenticateToken env req w) = Done res ->
  serve env req w = (res, w).
Proof.
  intros Hp Hrej.
  pose proof (authenticateToken_world env req w) as Hw.
  apply protected_url in Hp as (coll & rest & Hurl & Hcoll).
  unfold serve, app.
  destruct req as [m u h b usr errs]. simpl in Hurl. subst u.
  destruct (authenticateToken env _ w) as [o w'] eqn:E.
  simpl in Hrej, Hw. subst o w'.
  destruct Hcoll as [-> | [-> | ->]]; destruct m; simpl;
    unfold bind; rewrite ?andb_false_r; simpl; rewrite E; reflexivity.
Qed.

(** C3. Every request under [/api/clients], [/api/invoices] or
    [/api/dashboard] (client list, create, delete; invoice list, create,
    delete; dashboard) meets [authenticateToken] before any other layer that
    applies to it; when the middleware refuses the request, that refusal
    (status 401 or 403) is the answer and the world is exactly as before:
    the disk is unchanged and no file has been read or written. *)
Theorem C3_token_checked_before_any_data_access env req w res :
  protected req = true ->
  fst (authenticateToken env req w) = Done res ->
  serve env req w = (res, w) /\ (status res = 401 \/ status res = 403).
Proof.
  intros Hp Hrej. split.
  - now apply serve_rejected.
  - apply authenticateToken_rejects in Hrej as [-> | ->]; simpl; auto.
Qed.

(** ** Reaching a handler through the stack *)

Lemma operation_protected op header b :
  protected (request_of op header b) = true.
Proof. destruct op; reflexivity. Qed.

Lemma list_string_eqb_prefix p l :
  list_string_eqb p l = true -> prefix_of p l = true.
Proof.
  revert l. induction p as [|x p IH]; intros [|y l]; simpl; try discriminate;
    [reflexivity|].
  intros H. apply andb_prop in H as [Hx Hl]. rewrite Hx. now apply IH.
Qed.

(** The seven layers that read or write the clients and invoices files
    apply to protected requests only. *)
Lemma data_routes_are_protected l req :
  In l (firstn 7 (skipn 5 app)) ->
  applies l req = true ->
  protected req = true.
Proof.
  unfold protected. cbn [app skipn firstn]. intros Hin Happ.
  repeat (destruct Hin as [<-|Hin]; [
    cbn [applies route route_id] in Happ;
    repeat (apply andb_prop in Happ as [Happ ?]);
    try match goal with
        | H : list_string_eqb _ _ = true |- _ =>
            apply list_string_eqb_prefix in H
        end;
    match goal with
    | H : prefix_of _ _ = true |- _ => rewrite H
    end;
    rewrite ?orb_true_r; reflexivity |]).
  destruct Hin.
Qed.

(** A request that passes the check reaches the layers after the three
    mount points with [req.user] set. *)
Lemma dispatch_cons l rest env req w :
  dispatch (l :: rest) env req w =
    if applies l req then
      let (o, w') := run l env req w in
      match o with
      | Next req' => dispatch rest env req' w'
      | Done res => (res, w')
      end
    else dispatch rest env req w.
Proof.
  simpl. destruct (applies l req); [|reflexivity].
  unfold bind. destruct (run l env req w) as [[r|r] w']; reflexivity.
Qed.

(** Decides whether the next layer applies and moves on. *)
Ltac layer :=
  rewrite dispatch_cons;
  match goal with
  | |- context [applies ?l ?r] =>
      let b := eval cbv in (applies l r) in
      change (applies l r) with b
  end;
  cbv iota.

Lemma serve_after_token env req w u :
  protected req = true ->
  fst (authenticateToken env req w) = Next (set_user req u) ->
  serve env req w = dispatch (skipn 5 app) env (set_user req u) w.
Proof.
  intros Hp Hok.
  pose proof (authenticateToken_world env req w) as Hw.
  apply protected_url in Hp as (coll & rest & Hurl & Hcoll).
  unfold serve. set (tl := skipn 5 app).
  change app with
    (route POST ["api"; "login"]
       (chain [validateLogin; handleValidationErrors; post_api_login])
     :: route POST ["api"; "register"]
       (chain [validateRegister; handleValidationErrors; post_api_register])
     :: use ["api"; "clients"] authenticateToken
     :: use ["api"; "invoices"] authenticateToken
     :: use ["api"; "dashboard"] authenticateToken :: tl).
  clearbody tl.
  destruct req as [m ur h b usr errs]. simpl in Hurl. subst ur.
  destruct (authenticateToken env _ w) as [o w'] eqn:E.
  simpl in Hok, Hw. subst o w'.
  destruct Hcoll as [-> | [-> | ->]]; destruct m; simpl;
    unfold bind; rewrite ?andb_false_r; simpl; rewrite E; reflexivity.
Qed.

(** With a token that passes, the answer to an operation's request is the
    answer of its handler, run with [req.user] set. *)
Lemma serve_operation op env header b u w res w' :
  let req := request_of op header b in
  fst (authenticateToken env req w) = Next (set_user req u) ->
  handler_of op env (set_user req u) w = (Done res, w') ->
  serve env req w = (res, w').
Proof.
  intros req Hok Hh.
  rewrite (serve_after_token env req w u (operation_protected _ _ _) Hok).
  change (skipn 5 app) with (firstn 7 (skipn 5 app) ++ skipn 12 app)%list.
  cbn [firstn skipn app List.app].
  unfold req in *. clear req Hok.
  destruct op; cbn [request_of handler_of] in *; unfold set_user in *;
    cbn [method url authorization body user validation_errors] in *;
    repeat (layer; try (cbn [run route route_id use]; rewrite Hh; reflexivity)).
Qed.

(** ** C2: deleting an invoice the caller does not own *)

Lemma find_targets_none u n invoices :
  (forall inv, In inv invoices -> n = Some (i_id inv) -> i_userId inv <> cl_id u) ->
  find (targets u n) invoices = None.
Proof.
  intros H. induction invoices as [|inv l IH]; simpl; [reflexivity|].
  unfold targets at 1. destruct n as [k|]; simpl.
  - destruct (Z.eqb_spec (i_id inv) k) as [Hk|Hk]; simpl.
    + unfold owned_invoice.
      destruct (optZ_eqb (i_userId inv) (cl_id u)) eqn:E.
      * apply optZ_eqb_eq in E. exfalso.
        apply (H inv); [now left | now rewrite Hk | exact E].
      * apply IH. intros i Hi. apply H. now right.
    + apply IH. intros i Hi. apply H. now right.
  - apply IH. intros i Hi. apply H. now right.
Qed.

Lemma delete_invoice_not_found u env req w :
  find (targets u (parseInt (param_id req))) (load INVOICES_FILE (disk w)) = None ->
  delete_api_invoices_id u env req w =
    (Done (mkResponse 404 (J_error "Invoice not found")),
     mkWorld (disk w) (trace w ++ [Read INVOICES_FILE; Read CLIENTS_FILE])).
Proof.
  intros H. unfold delete_api_invoices_id. run_io.
  unfold targets in H. rewrite H. simpl.
  now rewrite <- app_assoc.
Qed.

(** C2. A caller whose token passes and who asks to delete an invoice id
    that no invoice of theirs carries (the id is absent, belongs to someone
    else, or is not a number) gets 404 "Invoice not found"; the three files
    are unchanged and nothing has been written (the request only read the
    invoices and clients files). *)
Theorem C2_delete_unowned_invoice_is_not_found env header b id u w :
  let req := request_of (InvoiceDelete id) header b in
  fst (authenticateToken env req w) = Next (set_user req u) ->
  (forall inv, In inv (load INVOICES_FILE (disk w)) ->
               parseInt id = Some (i_id inv) -> i_userId inv <> cl_id u) ->
  fst (serve env req w) = mkResponse 404 (J_error "Invoice not found") /\
  disk (snd (serve env req w)) = disk w /\
  trace (snd (serve env req w)) =
    (trace w ++ [Read INVOICES_FILE; Read CLIENTS_FILE])%list.
Proof.
  intros req Hok Hnone.
  apply (find_targets_none u) in Hnone.
  pose proof (delete_invoice_not_found u env (set_user req u) w Hnone) as Hd.
  subst req.
  rewrite (serve_operation (InvoiceDelete id) env header b u w _ _ Hok Hd).
  auto.
Qed.

(** ** C7: what the client list returns *)

Lemma get_api_clients_run env req w :
  get_api_clients env req w =
    (Done (mkResponse 200 (J_clients (load CLIENTS_FILE (disk w)))),
     mkWorld (disk w) (trace w ++ [Read CLIENTS_FILE])).
Proof. reflexivity. Qed.

(** The list sent is the whole clients file, whoever the caller is. *)
Lemma client_list_is_whole_file env header b u w :
  let req := request_of ClientList header b in
  fst (authenticateToken env req w) = Next (set_user req u) ->
  fst (serve env req w) = mkResponse 200 (J_clients (load CLIENTS_FILE (disk w))).
Proof.
  intros req Hok. subst req.
  now rewrite (serve_operation ClientList env header b u w _ _ Hok
                 (get_api_clients_run _ _ _)).
Qed.

(** ** C10: the dashboard *)

Lemma get_api_dashboard_run u env req w :
  get_api_dashboard u env req w =
    (Done (mkResponse 200 (J_stats
       (dashboard_stats (filter (owned_client u) (load CLIENTS_FILE (disk w)))
                        (filter (owned_invoice u) (load INVOICES_FILE (disk w)))))),
     mkWorld (disk w) (trace w ++ [Read CLIENTS_FILE; Read INVOICES_FILE])).
Proof.
  unfold get_api_dashboard. run_io. now rewrite <- app_assoc.
Qed.

Lemma filter_is_write_reads (t : list Access) (fs : list File) :
  filter is_write (t ++ map Read fs) = filter is_write t.
Proof.
  rewrite filter_app.
  replace (filter is_write (map Read fs)) with (@nil Access).
  - apply app_nil_r.
  - induction fs; simpl; auto.
Qed.

(** C10. A dashboard request never changes the three files and writes
    nothing, whether its token passes or not.  When the token passes for
    caller [u], the answer is 200 with the statistics of [u]'s records:
    the two counts, the sums of [taxAmount] and [total] over [u]'s invoices
    (added up in file order, each addition rounded as a double is),
    and a [clientSummary] whose lines are read off the stored client
    records: [invoiceCount] and [totalPaid] are the stored fields, with 0 for
    a field that is absent (or otherwise falsy); the invoices file plays no
    part in them. *)
Theorem C10_dashboard_reads_only env header b w :
  let req := request_of Dashboard header b in
  let out := serve env req w in
  disk (snd out) = disk w /\
  filter is_write (trace (snd out)) = filter is_write (trace w) /\
  forall u, fst (authenticateToken env req w) = Next (set_user req u) ->
    let clients := filter (owned_client u) (load CLIENTS_FILE (disk w)) in
    let invoices := filter (owned_invoice u) (load INVOICES_FILE (disk w)) in
    let number v := match v with Num n => n | _ => 0 end in
    fst out =
      mkResponse 200 (J_stats
        (mkStats (List.length clients) (List.length invoices)
           (fold_left (fun sum inv => js_add sum (Num (number (i_taxAmount inv))))
                      invoices (Num 0))
           (fold_left (fun sum inv => js_add sum (Num (number (i_total inv))))
                      invoices (Num 0))
           (map (fun c => mkClientSummary (c_name c) (c_email c)
                            (number (c_invoiceCount c))
                            (number (c_totalPaid c)))
                clients))).
Proof.
  intros req out.
  pose proof (authenticateToken_world env req w) as Hw.
  destruct (authenticateToken env req w) as [[req'|res] w'] eqn:E;
    simpl in Hw; subst w'.
  - assert (Hn : fst (authenticateToken env req w) = Next req')
      by now rewrite E.
    destruct (authenticateToken_next _ _ _ _ Hn) as [u ->].
    assert (Hout : out = _) by
      exact (serve_operation Dashboard env header b u w _ _ Hn
               (get_api_dashboard_run u env _ w)).
    rewrite Hout. simpl. repeat split.
    + apply (filter_is_write_reads (trace w) [CLIENTS_FILE; INVOICES_FILE]).
    + intros u' Hu'. simpl in Hu'.
      assert (u' = u) as -> by (unfold set_user in Hu'; congruence).
      reflexivity.
  - assert (Hd : fst (authenticateToken env req w) = Done res)
      by now rewrite E.
    assert (Hout : out = (res, w)) by
      exact (serve_rejected env req w res (operation_protected _ _ _) Hd).
    rewrite Hout. simpl. repeat split. intros u Hu. discriminate.
Qed.

(** ** Login and registration: C6, C5, C4 *)

Lemma serve_login env header b w res w' :
  let req := login_request header b in
  validateLogin_errors b = [] ->
  post_api_login env (set_validated req (validateLogin_body b) []) w = (Done res, w') ->
  serve env req w = (res, w').
Proof.
  intros req Hv Hh. unfold serve, app. layer.
  cbn [run route chain]. unfold validateLogin, validated, handleValidationErrors.
  run_io. rewrite Hv. subst req. simpl in Hh. simpl. rewrite Hh. reflexivity.
Qed.

Lemma serve_register env header b w res w' :
  let req := register_request header b in
  validateRegister_errors b = [] ->
  post_api_register env (set_validated req (validateRegister_body b) []) w = (Done res, w') ->
  serve env req w = (res, w').
Proof.
  intros req Hv Hh. unfold serve, app. layer. layer.
  cbn [run route chain]. unfold validateRegister, validated, handleValidationErrors.
  run_io. rewrite Hv. subst req. simpl in Hh. simpl. rewrite Hh. reflexivity.
Qed.

Lemma login_unknown_email env req w :
  find (same_email (b_email (body req))) (load USERS_FILE (disk w)) = None ->
  post_api_login env req w =
    (Done (mkResponse 401 (J_error "Invalid credentials")),
     mkWorld (disk w) (trace w ++ [Read USERS_FILE])).
Proof.
  intros H. unfold post_api_login. run_io. now rewrite H.
Qed.

Lemma login_wrong_password env req w user :
  find (same_email (b_email (body req))) (load USERS_FILE (disk w)) = Some user ->
  bcrypt_compare (b_password (body req)) (u_password user) = false ->
  post_api_login env req w =
    (Done (mkResponse 401 (J_error "Invalid credentials")),
     mkWorld (disk w) (trace w ++ [Read USERS_FILE])).
Proof.
  intros H Hc. unfold post_api_login. run_io. now rewrite H, Hc.
Qed.

(** C6. Two login requests that pass validation, one for an email no user
    has, one for a known email with a password that [bcrypt.compare]
    rejects, get the same answer, 401 with the message "Invalid
    credentials", and leave the same world behind (the users file read once,
    nothing written). *)
Theorem C6_login_failures_are_indistinguishable env h1 b1 h2 b2 w user :
  validateLogin_errors b1 = [] ->
  validateLogin_errors b2 = [] ->
  find (same_email (normalizeEmail (b_email b1))) (load USERS_FILE (disk w)) = None ->
  find (same_email (normalizeEmail (b_email b2))) (load USERS_FILE (disk w)) = Some user ->
  bcrypt_compare (b_password b2) (u_password user) = false ->
  serve env (login_request h1 b1) w = serve env (login_request h2 b2) w /\
  fst (serve env (login_request h1 b1) w) =
    mkResponse 401 (J_error "Invalid credentials").
Proof.
  intros V1 V2 Hunknown Hknown Hwrong.
  rewrite (serve_login env h1 b1 w _ _ V1
             (login_unknown_email env
                (set_validated (login_request h1 b1) (validateLogin_body b1) [])
                w Hunknown)).
  rewrite (serve_login env h2 b2 w _ _ V2
             (login_wrong_password env
                (set_validated (login_request h2 b2) (validateLogin_body b2) [])
                w user Hknown Hwrong)).
  split; reflexivity.
Qed.

Lemma register_conflict env req w user :
  find (same_email (b_email (body req))) (load USERS_FILE (disk w)) = Some user ->
  post_api_register env req w =
    (Done (mkResponse 409 (J_error "User already exists")),
     mkWorld (disk w) (trace w ++ [Read USERS_FILE])).
Proof.
  intros H. unfold post_api_register. run_io. now rewrite H.
Qed.

Lemma register_new env req w :
  find (same_email (b_email (body req))) (load USERS_FILE (disk w)) = None ->
  let users : list User := load USERS_FILE (disk w) in
  let u := new_user env (body req) users in
  post_api_register env req w =
    (Done (mkResponse 201
             (J_session (jwt_sign (u_id u) (u_email u) JWT_SECRET expiresIn (now env))
                        (mkUserView (u_id u) (u_email u) (u_name u)))),
     mkWorld (save USERS_FILE (users ++ [u])%list (disk w))
             (trace w ++ [Read USERS_FILE; Write USERS_FILE])).
Proof.
  intros H users u. unfold post_api_register. run_io. rewrite H. simpl.
  now rewrite <- app_assoc.
Qed.

Lemma find_app_last {A} (p : A -> bool) (l : list A) (x : A) :
  p x = true -> find p (l ++ [x]) <> None.
Proof.
  intros Hx Hnone.
  assert (Hf : p x = false).
  { apply (find_none _ _ Hnone x). apply in_or_app. right. now left. }
  congruence.
Qed.

(** After a registration that passed validation, some user has the
    (normalised) email of the request. *)
Lemma registered_email_is_taken env header b w :
  validateRegister_errors b = [] ->
  find (same_email (normalizeEmail (b_email b)))
       (load USERS_FILE (disk (snd (serve env (register_request header b) w))))
    <> None.
Proof.
  intros V.
  set (req := set_validated (register_request header b) (validateRegister_body b) []).
  destruct (find (same_email (normalizeEmail (b_email b)))
                 (load USERS_FILE (disk w))) as [user|] eqn:E.
  - rewrite (serve_register env header b w _ _ V (register_conflict env req w user E)).
    cbn [snd disk]. rewrite E. discriminate.
  - rewrite (serve_register env header b w _ _ V (register_new env req w E)).
    cbn [snd disk]. change (load USERS_FILE (save USERS_FILE ?l ?s)) with l.
    apply find_app_last. unfold same_email. simpl. apply String.eqb_refl.
Qed.

(** C5. Assume the email normaliser of express-validator sends addresses
    that differ only in letter case to the same address.  Of two
    registration requests that pass validation and whose emails differ only
    in letter case, the second, served after the first, is answered 409
    "User already exists"; it leaves the three files as the first left them
    and writes nothing. *)
Theorem C5_second_registration_conflicts env1 env2 h1 b1 h2 b2 w :
  (forall a b, toLowerCase a = toLowerCase b -> normalizeEmail a = normalizeEmail b) ->
  toLowerCase (b_email b1) = toLowerCase (b_email b2) ->
  validateRegister_errors b1 = [] ->
  validateRegister_errors b2 = [] ->
  let w1 := snd (serve env1 (register_request h1 b1) w) in
  let out := serve env2 (register_request h2 b2) w1 in
  fst out = mkResponse 409 (J_error "User already exists") /\
  disk (snd out) = disk w1 /\
  trace (snd out) = (trace w1 ++ [Read USERS_FILE])%list.
Proof.
  intros Hnorm Hcase V1 V2 w1 out.
  pose proof (registered_email_is_taken env1 h1 b1 w V1) as Htaken.
  fold w1 in Htaken. rewrite (Hnorm _ _ Hcase) in Htaken.
  destruct (find (same_email (normalizeEmail (b_email b2)))
                 (load USERS_FILE (disk w1))) as [user|] eqn:E;
    [clear Htaken | now elim Htaken].
  unfold out.
  rewrite (serve_register env2 h2 b2 w1 _ _ V2
             (register_conflict env2
                (set_validated (register_request h2 b2) (validateRegister_body b2) [])
                w1 user E)).
  auto.
Qed.

(** C4. A registration that passes validation for an email not yet taken
    appends one record to the users file whose [password] field is
    [bcrypt.hash(password, 10)] (with the salt drawn for the request) and
    leaves the other two files alone.  The raw password reaches the disk
    through that hash only: the same request with any other acceptable
    password that hashes to the same value leaves exactly the same world
    and gets the same answer. *)
Theorem C4_register_stores_the_bcrypt_hash env header b w :
  validateRegister_errors b = [] ->
  find (same_email (normalizeEmail (b_email b))) (load USERS_FILE (disk w)) = None ->
  let users : list User := load USERS_FILE (disk w) in
  let out := serve env (register_request header b) w in
  let stored :=
    mkUser (Some (Z.of_nat (List.length users) + 1))
           (escape (trim (b_name b))) (normalizeEmail (b_email b))
           (bcrypt_hash (salt env) (b_password b) 10)
           (b_contactNumber b) (escape (trim (b_address b))) (now env) in
  users_file (disk (snd out)) = Some (users ++ [stored])%list /\
  clients_file (disk (snd out)) = clients_file (disk w) /\
  invoices_file (disk (snd out)) = invoices_file (disk w) /\
  status (fst out) = 201 /\
  forall password,
    6 <= len password ->
    bcrypt_hash (salt env) password 10 = bcrypt_hash (salt env) (b_password b) 10 ->
    serve env (register_request header (set_password b password)) w = out.
Proof.
  intros V Hnew users out stored.
  set (req := set_validated (register_request header b) (validateRegister_body b) []).
  unfold out.
  rewrite (serve_register env header b w _ _ V (register_new env req w Hnew)).
  simpl. repeat split.
  intros password Hlen Hhash.
  assert (V' : validateRegister_errors (set_password b password) = []).
  { unfold validateRegister_errors in *. simpl.
    destruct (between 2 100 (len (trim (b_name b)))); [|discriminate].
    destruct (isEmail (b_email b)); [|discriminate].
    destruct (6 <=? len (b_password b)); [|discriminate].
    simpl in *. destruct (Z.leb_spec 6 (len password)); [exact V | lia]. }
  rewrite (serve_register env header (set_password b password) w _ _ V'
             (register_new env
                (set_validated (register_request header (set_password b password))
                   (validateRegister_body (set_password b password)) [])
                w Hnew)).
  unfold new_user. simpl. rewrite Hhash. reflexivity.
Qed.

(** ** C9: lifetime of a session token *)

Lemma issued_encodes env user :
  issued env user = jwt_encode (issued_claims env user) JWT_SECRET.
Proof. reflexivity. Qed.

Lemma login_success env req w user :
  find (same_email (b_email (body req))) (load USERS_FILE (disk w)) = Some user ->
  bcrypt_compare (b_password (body req)) (u_password user) = true ->
  post_api_login env req w =
    (Done (mkResponse 200
             (J_session (issued env user)
                        (mkUserView (u_id user) (u_email user) (u_name user)))),
     mkWorld (disk w) (trace w ++ [Read USERS_FILE])).
Proof.
  intros H Hc. unfold post_api_login. run_io. now rewrite H, Hc.
Qed.

Lemma authenticateToken_verify env req w token :
  bearer (authorization req) = Some token ->
  token <> "" ->
  authenticateToken env req w =
    match jwt_verify token JWT_SECRET (now env) with
    | inl _ => (Done (mkResponse 403 (J_error "Invalid or expired token")), w)
    | inr u => (Next (set_user req u), w)
    end.
Proof.
  intros Hb Hne. unfold authenticateToken. rewrite Hb.
  destruct token as [|a t]; [congruence|].
  destruct (jwt_verify _ _ _); reflexivity.
Qed.

(** C9. Take the token a successful login for [user] returns at time
    [now env]: it is the signed payload [{ id, email, iat, exp }] with [exp]
    24 hours after [iat].  Assume jsonwebtoken reads back
    from that token, under the same secret, the payload it signed, and that
    the token is what the [Authorization] header carries after its first
    space.  Then [authenticateToken] lets the request through, with
    [req.user] set to the payload, at every time before issuance + 24h, in
    particular at issuance + 1h; and refuses it with status 403 "Invalid or
    expired token" from issuance + 24h on, in particular at issuance + 25h.
    A token that jsonwebtoken cannot read under the secret (malformed, or
    signed otherwise) is refused with the same answer at any time.  In every
    case the world is untouched. *)
Theorem C9_token_is_valid_for_24_hours env user req w :
  let token := issued env user in
  let claims := issued_claims env user in
  jwt_decode token JWT_SECRET = Some claims ->
  bearer (authorization req) = Some token ->
  token <> "" ->
  let refused :=
    (Done (mkResponse 403 (J_error "Invalid or expired token")), w) in
  (forall login,
     find (same_email (b_email (body login))) (load USERS_FILE (disk w)) = Some user ->
     bcrypt_compare (b_password (body login)) (u_password user) = true ->
     fst (post_api_login env login w) =
       Done (mkResponse 200
               (J_session token
                  (mkUserView (u_id user) (u_email user) (u_name user))))) /\
  token = jwt_encode claims JWT_SECRET /\
  cl_iat claims = now env /\
  cl_exp claims = cl_iat claims + 24 * 60 * 60 /\
  (forall t s, t < now env + 86400 ->
     authenticateToken (mkEnv t s) req w = (Next (set_user req claims), w)) /\
  (forall t s, now env + 86400 <= t ->
     authenticateToken (mkEnv t s) req w = refused) /\
  (forall s, authenticateToken (mkEnv (now env + 1 * 3600) s) req w
             = (Next (set_user req claims), w)) /\
  (forall s, authenticateToken (mkEnv (now env + 25 * 3600) s) req w = refused) /\
  (forall req' bad e,
     bearer (authorization req') = Some bad -> bad <> "" ->
     jwt_decode bad JWT_SECRET = None ->
     authenticateToken e req' w = refused).
Proof.
  intros token claims Hread Hhdr Hne refused.
  assert (Hbefore : forall t s, t < now env + 86400 ->
            authenticateToken (mkEnv t s) req w = (Next (set_user req claims), w)).
  { intros t s Ht. rewrite (authenticateToken_verify _ _ _ _ Hhdr Hne).
    unfold jwt_verify. rewrite Hread. simpl.
    destruct (Z.leb_spec (now env + 86400) t); [lia | reflexivity]. }
  assert (Hafter : forall t s, now env + 86400 <= t ->
            authenticateToken (mkEnv t s) req w = refused).
  { intros t s Ht. rewrite (authenticateToken_verify _ _ _ _ Hhdr Hne).
    unfold jwt_verify. rewrite Hread. simpl.
    destruct (Z.leb_spec (now env + 86400) t); [reflexivity | lia]. }
  repeat split.
  - intros login Hfind Hcmp. now rewrite (login_success env login w user Hfind Hcmp).
  - exact Hbefore.
  - exact Hafter.
  - intros s. apply Hbefore. lia.
  - intros s. apply Hafter. lia.
  - intros req' bad e Hb Hbad Hnone.
    rewrite (authenticateToken_verify _ _ _ _ Hb Hbad).
    unfold jwt_verify. now rewrite Hnone.
Qed.

(** ** C8: creating an invoice *)

Ltac case_find :=
  match goal with
  | |- context [find ?p ?l] => destruct (find p l) eqn:?
  end.

Lemma post_api_invoices_run u env req w :
  exists t,
    post_api_invoices u env req w =
      (Done (mkResponse 201
               (J_invoice (new_invoice env u (body req)
                             (load INVOICES_FILE (disk w))))),
       mkWorld (after_create env u (body req) (disk w)) t).
Proof.
  unfold post_api_invoices, update_client_stats, after_create, new_invoice, billed.
  run_io.
  case_find; run_io; eexists; reflexivity.
Qed.

Lemma find_none_update_first {A} (p : A -> bool) (f : A -> A) (l : list A) :
  find p l = None -> update_first p f l = l.
Proof.
  induction l as [|x l IH]; simpl; [reflexivity|].
  destruct (p x); [discriminate|]. intros H. now rewrite IH.
Qed.

Lemma find_none_id_absent u cid clients :
  (forall c, In c clients -> c_id c <> cid) ->
  find (billed u cid) clients = None.
Proof.
  intros H. induction clients as [|c l IH]; simpl; [reflexivity|].
  unfold billed at 1.
  destruct (Z.eqb_spec (c_id c) cid) as [E|E].
  - exfalso. apply (H c); [now left | exact E].
  - simpl. apply IH. intros c' Hc'. apply H. now right.
Qed.

Lemma chain_validated errors sanitized (h : Handler) env req w res w' :
  validation_errors req = [] ->
  errors (body req) = [] ->
  h env (set_validated req (sanitized (body req)) []) w = (Done res, w') ->
  chain [validated errors sanitized; handleValidationErrors; h] env req w =
    (Done res, w').
Proof.
  intros He Hv Hh. destruct req as [m ur a bd us ve].
  unfold set_validated in Hh. simpl in He, Hv. subst ve. simpl in Hh.
  cbn [chain]. unfold validated, handleValidationErrors, bind, ret, set_validated.
  simpl. rewrite Hv. simpl. rewrite Hh. reflexivity.
Qed.

(** C8 (as the code has it). An invoice-create request that passes the
    token check and the validation chain is accepted whether or not its
    [clientId] is the id of an existing client: the answer is 201 with the
    new invoice, which is appended to the invoices file with that
    [clientId]; when no client has that id, the clients file is left as it
    was.  When the body carries no [id] of its own, the new invoice's id is
    the number of invoices in the file plus one. *)
Theorem C8_invoice_create_accepts_any_client_id env header b u w :
  let req := request_of InvoiceCreate header b in
  fst (authenticateToken env req w) = Next (set_user req u) ->
  validateInvoice_errors b = [] ->
  let invoices : list Invoice := load INVOICES_FILE (disk w) in
  let clients : list Client := load CLIENTS_FILE (disk w) in
  let out := serve env req w in
  let inv := new_invoice env u (validateInvoice_body b) invoices in
  fst out = mkResponse 201 (J_invoice inv) /\
  load INVOICES_FILE (disk (snd out)) = map stringify_invoice (invoices ++ [inv]) /\
  i_clientId inv = b_clientId b /\
  ((forall c, In c clients -> c_id c <> b_clientId b) ->
   clients_file (disk (snd out)) = clients_file (disk w)) /\
  (b_id b = None -> i_id inv = Z.of_nat (List.length invoices) + 1).
Proof.
  intros req Hok Hv invoices clients out inv.
  set (req' := set_validated (set_user req u) (validateInvoice_body b) []).
  destruct (post_api_invoices_run u env req' w) as [t Hrun].
  assert (Hh : handler_of InvoiceCreate env (set_user req u) w =
               (Done (mkResponse 201 (J_invoice inv)),
                mkWorld (after_create env u (validateInvoice_body b) (disk w)) t)).
  { cbn [handler_of]. apply chain_validated; [reflexivity | exact Hv |].
    unfold as_user. exact Hrun. }
  unfold out. subst req.
  rewrite (serve_operation InvoiceCreate env header b u w _ _ Hok Hh).
  cbn [fst snd disk]. repeat split.
  - unfold after_create.
    case_find; reflexivity.
  - intros Habsent. unfold clients in Habsent. unfold after_create.
    cbn [new_invoice i_clientId validateInvoice_body b_clientId].
    rewrite (find_none_id_absent u _ _ Habsent). reflexivity.
  - intros Hid. unfold inv, new_invoice. simpl. now rewrite Hid.
Qed.

(** ** C1: the statistics kept on the client records *)

Lemma step_create env u req w :
  disk (step w (Create env u req)) = after_create env u (body req) (disk w).
Proof.
  simpl. destruct (post_api_invoices_run u env req w) as [t ->]. reflexivity.
Qed.

Lemma step_delete env u req w :
  disk (step w (Delete env u req)) =
    after_delete u (parseInt (param_id req)) (disk w).
Proof.
  simpl. unfold delete_api_invoices_id, update_client_stats, after_delete, targets.
  run_io. case_find; run_io; [|reflexivity].
  case_find; reflexivity.
Qed.

(** *** Counting over the invoices file *)

Lemma sum_totals_app l1 l2 :
  sum_totals (l1 ++ l2) = sum_totals l1 + sum_totals l2.
Proof.
  unfold sum_totals. induction l1 as [|i l IH]; simpl; [reflexivity|].
  rewrite IH. lia.
Qed.

Lemma count_of_app cid l1 l2 :
  count_of cid (l1 ++ l2) = count_of cid l1 + count_of cid l2.
Proof.
  unfold count_of, invoices_of. rewrite filter_app, length_app. lia.
Qed.

Lemma paid_of_app cid l1 l2 :
  paid_of cid (l1 ++ l2) = paid_of cid l1 + paid_of cid l2.
Proof.
  unfold paid_of, invoices_of. now rewrite filter_app, sum_totals_app.
Qed.

Lemma or0_stringify v : or0 (stringify_num v) = or0 v.
Proof. destruct v; reflexivity. Qed.

Lemma invoices_of_stringify cid l :
  invoices_of cid (map stringify_invoice l) =
    map stringify_invoice (invoices_of cid l).
Proof.
  unfold invoices_of. induction l as [|i l IH]; simpl; [reflexivity|].
  destruct (i_clientId i =? cid); simpl; now rewrite IH.
Qed.

Lemma count_of_stringify cid l :
  count_of cid (map stringify_invoice l) = count_of cid l.
Proof.
  unfold count_of. now rewrite invoices_of_stringify, length_map.
Qed.

Lemma paid_of_stringify cid l :
  paid_of cid (map stringify_invoice l) = paid_of cid l.
Proof.
  unfold paid_of. rewrite invoices_of_stringify.
  unfold sum_totals. induction (invoices_of cid l) as [|i r IH]; simpl;
    [reflexivity|].
  now rewrite or0_stringify, IH.
Qed.

Lemma filter_keeps_all n l :
  (forall i, In i l -> id_is n (i_id i) = false) -> filter (keeps n) l = l.
Proof.
  intros H. induction l as [|i l IH]; simpl; [reflexivity|].
  unfold keeps at 1. rewrite (H i (or_introl eq_refl)). simpl.
  rewrite IH; [reflexivity|]. intros j Hj. apply H. now right.
Qed.

Lemma count_of_cons cid i l :
  count_of cid (i :: l) =
    (if i_clientId i =? cid then 1 else 0) + count_of cid l.
Proof.
  unfold count_of, invoices_of. simpl.
  destruct (i_clientId i =? cid); simpl List.length; lia.
Qed.

Lemma paid_of_cons cid i l :
  paid_of cid (i :: l) =
    (if i_clientId i =? cid then or0 (i_total i) else 0) + paid_of cid l.
Proof.
  unfold paid_of, invoices_of. simpl.
  destruct (i_clientId i =? cid); reflexivity.
Qed.

(** With distinct ids, removing the id of [inv] removes [inv] alone. *)
Lemma remove_one n inv l cid :
  NoDup (map i_id l) ->
  In inv l ->
  id_is n (i_id inv) = true ->
  count_of cid (filter (keeps n) l) =
    count_of cid l - (if i_clientId inv =? cid then 1 else 0) /\
  paid_of cid (filter (keeps n) l) =
    paid_of cid l - (if i_clientId inv =? cid then or0 (i_total inv) else 0).
Proof.
  intros Hnd Hin Hid.
  destruct n as [k|]; [|discriminate]. simpl in Hid.
  apply Z.eqb_eq in Hid.
  induction l as [|i l IH]; [contradiction|].
  simpl in Hnd. inversion Hnd as [|x xs Hnotin Hnd' Heq]; subst x xs.
  rewrite count_of_cons, paid_of_cons.
  change (filter (keeps (Some k)) (i :: l)) with
    (if keeps (Some k) i then i :: filter (keeps (Some k)) l
     else filter (keeps (Some k)) l).
  destruct Hin as [<-|Hin].
  - assert (Hk : keeps (Some k) i = false).
    { unfold keeps. simpl. now rewrite Hid, Z.eqb_refl. }
    rewrite Hk, filter_keeps_all.
    + split; lia.
    + intros j Hj. simpl. apply Z.eqb_neq. intros Hjk. apply Hnotin.
      rewrite Hid, <- Hjk. now apply in_map.
  - assert (Hi : i_id i <> k).
    { intros E. apply Hnotin. rewrite E, <- Hid. now apply in_map. }
    assert (Hk : keeps (Some k) i = true).
    { unfold keeps. simpl. apply Z.eqb_neq in Hi. now rewrite Hi. }
    rewrite Hk, count_of_cons, paid_of_cons.
    destruct (IH Hnd' Hin) as [-> ->]. split; lia.
Qed.

(** *** Where doubles are exact *)

Lemma double_of_exact n : Z.abs n <= two53 -> double_of n = Num n.
Proof.
  intros H. unfold double_of, round_double.
  destruct (Z.leb_spec (Z.abs n) two53) as [_|Hgt]; [|lia].
  assert (Hlog : Z.log2 (Z.abs n) <= 53).
  { change 53 with (Z.log2 two53). now apply Z.log2_le_mono. }
  destruct (Z.ltb_spec (Z.log2 (Z.abs n)) 1024) as [_|Hge]; [reflexivity | lia].
Qed.

Lemma js_add_exact p z :
  Z.abs (p + z) <= two53 -> js_add (Num p) (Num z) = Num (p + z).
Proof. intros H. unfold js_add. simpl. now apply double_of_exact. Qed.

Lemma js_sub_exact p z :
  Z.abs (p - z) <= two53 -> js_sub (Num p) (Num z) = Num (p - z).
Proof. intros H. unfold js_sub. simpl. now apply double_of_exact. Qed.

Lemma invoice_created_exact c n p z :
  c_invoiceCount c = Num n -> c_totalPaid c = Num p ->
  0 <= n < two53 -> Z.abs (p + z) <= two53 ->
  invoice_created (Num z) c =
    mkClient (c_id c) (c_userId c) (c_name c) (c_email c) (c_address c)
             (Num (n + 1)) (Num (p + z)) (c_createdAt c).
Proof.
  intros Hn Hp Hr Hs. unfold invoice_created, js_incr.
  rewrite Hn, Hp, (js_add_exact n 1), (js_add_exact p z);
    [reflexivity | exact Hs | unfold two53 in *; lia].
Qed.

Lemma invoice_deleted_exact c n p z :
  c_invoiceCount c = Num n -> c_totalPaid c = Num p ->
  0 <= n <= two53 -> Z.abs (p - z) <= two53 ->
  invoice_deleted (Num z) c =
    mkClient (c_id c) (c_userId c) (c_name c) (c_email c) (c_address c)
             (Num (n - 1)) (Num (p - z)) (c_createdAt c).
Proof.
  intros Hn Hp Hr Hs. unfold invoice_deleted, js_decr.
  rewrite Hn, Hp, (js_sub_exact n 1), (js_sub_exact p z);
    [reflexivity | exact Hs | unfold two53 in *; lia].
Qed.

Lemma weight_nonneg l : 0 <= weight l.
Proof. unfold weight. induction l as [|i l IH]; simpl; lia. Qed.

Lemma weight_app l1 l2 : weight (l1 ++ l2) = weight l1 + weight l2.
Proof.
  unfold weight. induction l1 as [|i l IH]; simpl; [reflexivity|].
  rewrite IH. lia.
Qed.

Lemma weight_stringify l : weight (map stringify_invoice l) = weight l.
Proof.
  unfold weight. induction l as [|i l IH]; simpl; [reflexivity|].
  now rewrite or0_stringify, IH.
Qed.

Lemma weight_filter (q : Invoice -> bool) l : weight (filter q l) <= weight l.
Proof.
  induction l as [|i l IH]; simpl; [reflexivity|].
  destruct (q i); unfold weight in *; simpl; lia.
Qed.

Lemma sum_le_weight l : Z.abs (sum_totals l) <= weight l.
Proof.
  unfold sum_totals, weight. induction l as [|i l IH]; simpl; lia.
Qed.

Lemma paid_le_weight cid l : Z.abs (paid_of cid l) <= weight l.
Proof.
  unfold paid_of, invoices_of.
  pose proof (sum_le_weight (filter (fun i => i_clientId i =? cid) l)).
  pose proof (weight_filter (fun i => i_clientId i =? cid) l). lia.
Qed.

(** The sum for a client without one of its invoices. *)
Lemma paid_without_le_weight cid inv l :
  In inv l -> i_clientId inv = cid ->
  Z.abs (paid_of cid l - or0 (i_total inv)) <= weight l.
Proof.
  intros Hin Hcid. induction l as [|i l IH]; [contradiction|].
  rewrite paid_of_cons. change (weight (i :: l))
    with (Z.abs (or0 (i_total i)) + weight l).
  destruct Hin as [->|Hin].
  - apply Z.eqb_eq in Hcid. rewrite Hcid.
    pose proof (paid_le_weight cid l). lia.
  - specialize (IH Hin). destruct (i_clientId i =? cid); lia.
Qed.

Lemma count_of_range cid l : 0 <= count_of cid l <= Z.of_nat (List.length l).
Proof.
  unfold count_of, invoices_of. split; [lia|].
  apply inj_le. apply filter_length_le.
Qed.

Lemma exact_range_stringify l :
  exact_range (map stringify_invoice l) <-> exact_range l.
Proof. unfold exact_range. now rewrite weight_stringify, length_map. Qed.

Lemma exact_range_filter (q : Invoice -> bool) l :
  exact_range l -> exact_range (filter q l).
Proof.
  intros [Hw Hl]. pose proof (weight_filter q l).
  pose proof (filter_length_le q l). split; lia.
Qed.

(** What a creation does to the record of the client it names, while the
    invoices with the new one stay in the exact range. *)
Lemma created_in_range s c inv z :
  aggregates_hold s -> In c (load CLIENTS_FILE s) ->
  i_total inv = Num z ->
  exact_range (load INVOICES_FILE s ++ [inv]) ->
  invoice_created (Num z) c =
    mkClient (c_id c) (c_userId c) (c_name c) (c_email c) (c_address c)
             (Num (count_of (c_id c) (load INVOICES_FILE s) + 1))
             (Num (paid_of (c_id c) (load INVOICES_FILE s) + z))
             (c_createdAt c).
Proof.
  intros Ha Hin Hz [Hw Hl]. destruct (Ha c Hin) as [Hcount Hpaid].
  rewrite weight_app in Hw. rewrite length_app, Nat2Z.inj_add in Hl.
  assert (Hwi : weight [inv] = Z.abs z)
    by (unfold weight; cbn [fold_right]; rewrite Hz; cbn [or0]; lia).
  rewrite Hwi in Hw. change (Z.of_nat (List.length [inv])) with 1 in Hl.
  pose proof (count_of_range (c_id c) (load INVOICES_FILE s)).
  pose proof (paid_le_weight (c_id c) (load INVOICES_FILE s)).
  apply (invoice_created_exact c _ _ z Hcount Hpaid); unfold two53 in *; lia.
Qed.

(** What the deletion of one of its invoices does to a client record, in
    the exact range. *)
Lemma deleted_in_range s c inv z :
  aggregates_hold s -> In c (load CLIENTS_FILE s) ->
  exact_range (load INVOICES_FILE s) ->
  In inv (load INVOICES_FILE s) -> i_clientId inv = c_id c ->
  i_total inv = Num z ->
  invoice_deleted (Num z) c =
    mkClient (c_id c) (c_userId c) (c_name c) (c_email c) (c_address c)
             (Num (count_of (c_id c) (load INVOICES_FILE s) - 1))
             (Num (paid_of (c_id c) (load INVOICES_FILE s) - z))
             (c_createdAt c).
Proof.
  intros Ha Hin [Hw Hl] Hinv Hcid Hz. destruct (Ha c Hin) as [Hcount Hpaid].
  pose proof (count_of_range (c_id c) (load INVOICES_FILE s)).
  pose proof (paid_without_le_weight (c_id c) inv _ Hinv Hcid) as Hb.
  rewrite Hz in Hb. cbn [or0] in Hb.
  apply (invoice_deleted_exact c _ _ z Hcount Hpaid); unfold two53 in *; lia.
Qed.

(** *** Updating one client record *)

Lemma update_first_as_map {A} (key : A -> Z) (k : Z) (p : A -> bool)
    (f : A -> A) (l : list A) :
  NoDup (map key l) ->
  (forall x, In x l -> p x = (key x =? k)) ->
  update_first p f l = map (fun x => if key x =? k then f x else x) l.
Proof.
  induction l as [|x l IH]; intros Hnd Hp; simpl; [reflexivity|].
  simpl in Hnd. inversion Hnd as [|y ys Hnotin Hnd' Heq]; subst y ys.
  rewrite (Hp x (or_introl eq_refl)).
  destruct (Z.eqb_spec (key x) k) as [E|E].
  - f_equal. rewrite <- (map_id l) at 1. apply map_ext_in.
    intros y Hy. destruct (Z.eqb_spec (key y) k) as [Ey|Ey]; [|reflexivity].
    exfalso. apply Hnotin. rewrite E, <- Ey. now apply in_map.
  - f_equal. apply IH; [exact Hnd'|]. intros y Hy. apply Hp. now right.
Qed.

Lemma NoDup_snoc {A} (l : list A) (x : A) :
  NoDup l -> ~ In x l -> NoDup (l ++ [x]).
Proof.
  induction l as [|y l IH]; intros Hnd Hx; simpl.
  - constructor; [intros []|constructor].
  - inversion Hnd as [|z zs Hy Hnd' Heq]; subst z zs. constructor.
    + intros Hin. apply in_app_or in Hin as [Hin|[<-|[]]]; [now apply Hy|].
      apply Hx. now left.
    + apply IH; [exact Hnd'|]. intros Hin. apply Hx. now right.
Qed.

Lemma NoDup_map_filter {A} (key : A -> Z) (q : A -> bool) (l : list A) :
  NoDup (map key l) -> NoDup (map key (filter q l)).
Proof.
  induction l as [|x l IH]; intros Hnd; simpl; [constructor|].
  simpl in Hnd. inversion Hnd as [|y ys Hx Hnd' Heq]; subst y ys.
  destruct (q x); simpl; [|now apply IH].
  constructor; [|now apply IH].
  intros Hin. apply Hx. apply in_map_iff in Hin as (y & Hy & Hin).
  apply filter_In in Hin as [Hin _]. rewrite <- Hy. now apply in_map.
Qed.

Lemma map_id_stringify_invoice l :
  map i_id (map stringify_invoice l) = map i_id l.
Proof. rewrite map_map. now apply map_ext. Qed.

Lemma stringify_client_numbers c n p :
  c_invoiceCount c = Num n -> c_totalPaid c = Num p -> stringify_client c = c.
Proof.
  destruct c as [i o nm e a cnt paid t]. simpl. intros -> ->. reflexivity.
Qed.

Lemma in_stringify_invoices i' l :
  In i' (map stringify_invoice l) ->
  exists i, In i l /\ i_id i' = i_id i /\ i_userId i' = i_userId i /\
            i_clientId i' = i_clientId i /\
            i_total i' = stringify_num (i_total i).
Proof.
  intros H. apply in_map_iff in H as (i & <- & Hi).
  exists i. repeat split; try reflexivity. exact Hi.
Qed.

Lemma aggregates_numeric s c :
  aggregates_hold s -> In c (load CLIENTS_FILE s) -> numeric c.
Proof. intros H Hc. destruct (H c Hc) as [H1 H2]. unfold numeric. eauto. Qed.

(** The clients file after [update_client_stats], when ids are distinct and
    the test [p] singles out the id [cid]. *)
Lemma clients_updated (p : Client -> bool) (f : Client -> Client) cid s s1 :
  load CLIENTS_FILE s1 = load CLIENTS_FILE s ->
  NoDup (map c_id (load CLIENTS_FILE s)) ->
  (forall c, In c (load CLIENTS_FILE s) -> p c = (c_id c =? cid)) ->
  (forall c, In c (load CLIENTS_FILE s) ->
     numeric c /\ (c_id c = cid -> numeric (f c))) ->
  load CLIENTS_FILE
    (match find p (load CLIENTS_FILE s) with
     | Some _ => save CLIENTS_FILE (update_first p f (load CLIENTS_FILE s)) s1
     | None => s1
     end) =
  map (fun c => if c_id c =? cid then f c else c) (load CLIENTS_FILE s).
Proof.
  intros Hs1 Hnd Hp Hnum.
  destruct (find p (load CLIENTS_FILE s)) as [c0|] eqn:E.
  - change (load CLIENTS_FILE (save CLIENTS_FILE ?l ?d)) with (map stringify_client l).
    rewrite (update_first_as_map c_id cid p f _ Hnd Hp), map_map.
    apply map_ext_in. intros c Hc. destruct (Hnum c Hc) as [Hn Hfn].
    destruct (Z.eqb_spec (c_id c) cid) as [Ec|Ec].
    + destruct (Hfn Ec) as (n & q & H1 & H2).
      eapply stringify_client_numbers; eauto.
    + destruct Hn as (n & q & H1 & H2). eapply stringify_client_numbers; eauto.
  - rewrite Hs1. rewrite <- (map_id (load CLIENTS_FILE s)) at 1.
    apply map_ext_in. intros c Hc.
    rewrite <- (Hp c Hc), (find_none _ _ E c Hc). reflexivity.
Qed.

Lemma in_updated_clients (cid : Z) (f : Client -> Client) l c' :
  In c' (map (fun c => if c_id c =? cid then f c else c) l) ->
  exists c, In c l /\
    ((c_id c = cid /\ c' = f c) \/ (c_id c <> cid /\ c' = c)).
Proof.
  intros H. apply in_map_iff in H as (c & <- & Hc). exists c. split; [exact Hc|].
  destruct (Z.eqb_spec (c_id c) cid); auto.
Qed.

Lemma count_of_other cid inv :
  i_clientId inv <> cid -> count_of cid [inv] = 0 /\ paid_of cid [inv] = 0.
Proof.
  intros H. apply Z.eqb_neq in H.
  rewrite count_of_cons, paid_of_cons, H. split; reflexivity.
Qed.

Lemma count_of_same cid inv :
  i_clientId inv = cid ->
  count_of cid [inv] = 1 /\ paid_of cid [inv] = or0 (i_total inv).
Proof.
  intros H. apply Z.eqb_eq in H.
  rewrite count_of_cons, paid_of_cons, H. unfold paid_of, count_of. simpl.
  split; lia.
Qed.

(** *** The two operations keep the state well formed *)

Lemma create_preserves env u req s :
  well_formed s ->
  admissible s (Create env u req) ->
  well_formed (after_create env u (body req) s).
Proof.
  intros [Hi Hc Ho Ht He Ha] (Hfresh & [z Hz] & Hrange & Hown).
  set (b := body req) in *.
  set (inv := new_invoice env u b (load INVOICES_FILE s)) in *.
  assert (Hcid : i_clientId inv = b_clientId b) by reflexivity.
  assert (Htot : i_total inv = Num z) by exact Hz.
  pose proof (fun c Hin => created_in_range s c inv z Ha Hin Htot Hrange)
    as Hcreated.
  assert (Hinv : load INVOICES_FILE (after_create env u b s) =
                 map stringify_invoice (load INVOICES_FILE s ++ [inv])).
  { unfold after_create. fold inv. case_find; reflexivity. }
  assert (Hcl : load CLIENTS_FILE (after_create env u b s) =
                map (fun c => if c_id c =? b_clientId b
                              then invoice_created (Num z) c else c)
                    (load CLIENTS_FILE s)).
  { unfold after_create. fold inv. rewrite Hcid, Htot.
    apply clients_updated; [reflexivity | exact Hc | |].
    - intros c Hin. unfold billed, owned_client.
      destruct (Z.eqb_spec (c_id c) (b_clientId b)) as [E|E]; [|reflexivity].
      simpl. apply optZ_eqb_eq. now apply Hown.
    - intros c Hin. split; [now apply (aggregates_numeric s)|].
      intros _. rewrite (Hcreated c Hin). unfold numeric. simpl. eauto. }
  constructor.
  - rewrite Hinv, map_id_stringify_invoice, map_app. simpl.
    now apply NoDup_snoc.
  - rewrite Hcl, map_map.
    replace (map _ (load CLIENTS_FILE s)) with (map c_id (load CLIENTS_FILE s));
      [exact Hc|].
    apply map_ext. intros c. now destruct (c_id c =? b_clientId b).
  - intros i' c'. rewrite Hinv, Hcl. intros Hi' Hc' Href.
    apply in_stringify_invoices in Hi' as (i & Hin & _ & Hu & Hci & _).
    apply in_updated_clients in Hc' as (c & Hcin & Hcase).
    assert (Hids : c_id c' = c_id c /\ c_userId c' = c_userId c).
    { destruct Hcase as [[_ ->]|[_ ->]]; now split. }
    destruct Hids as [Hid Huid]. rewrite Hu, Huid.
    apply in_app_or in Hin as [Hin|[<-|[]]].
    + apply Ho; [exact Hin | exact Hcin | congruence].
    + simpl. symmetry. apply Hown; [exact Hcin|]. rewrite <- Hcid. congruence.
  - intros i'. rewrite Hinv. intros Hi'.
    apply in_stringify_invoices in Hi' as (i & Hin & _ & _ & _ & Htotal).
    rewrite Htotal.
    apply in_app_or in Hin as [Hin|[<-|[]]].
    + destruct (Ht i Hin) as [t ->]. now exists t.
    + rewrite Htot. now exists z.
  - rewrite Hinv. now apply exact_range_stringify.
  - intros c'. rewrite Hinv, Hcl. intros Hc'.
    apply in_updated_clients in Hc' as (c & Hcin & Hcase).
    destruct (Ha c Hcin) as [Hcount Hpaid].
    rewrite count_of_stringify, paid_of_stringify, count_of_app, paid_of_app.
    destruct Hcase as [[E ->]|[E ->]].
    + rewrite (Hcreated c Hcin). simpl.
      destruct (count_of_same (c_id c) inv) as [-> ->]; [congruence|].
      rewrite Htot. split; reflexivity.
    + rewrite Hcount, Hpaid.
      destruct (count_of_other (c_id c) inv) as [-> ->]; [congruence|].
      rewrite !Z.add_0_r. split; reflexivity.
Qed.

Lemma delete_preserves u n s :
  well_formed s -> well_formed (after_delete u n s).
Proof.
  intros Hwf. pose proof Hwf as [Hi Hc Ho Ht He Ha].
  unfold after_delete.
  destruct (find (targets u n) (load INVOICES_FILE s)) as [inv|] eqn:E;
    [|exact Hwf].
  apply find_some in E as [Hin Htarget].
  unfold targets in Htarget. apply andb_prop in Htarget as [Hid _].
  destruct (Ht inv Hin) as [z Hz].
  pose proof (fun c Hcin Hcid => deleted_in_range s c inv z Ha Hcin He Hin Hcid Hz)
    as Hdeleted.
  set (s1 := match find _ (load CLIENTS_FILE s) with
             | Some _ => _
             | None => s
             end).
  assert (Hcl : load CLIENTS_FILE s1 =
                map (fun c => if c_id c =? i_clientId inv
                              then invoice_deleted (Num z) c else c)
                    (load CLIENTS_FILE s)).
  { unfold s1. rewrite Hz.
    apply clients_updated; [reflexivity | exact Hc | reflexivity |].
    intros c Hcin. split; [now apply (aggregates_numeric s)|].
    intros Hcid. rewrite (Hdeleted c Hcin (eq_sym Hcid)).
    unfold numeric. simpl. eauto. }
  assert (Hinv1 : load INVOICES_FILE s1 = load INVOICES_FILE s).
  { unfold s1. case_find; reflexivity. }
  change (filter (fun inv0 => negb (id_is n (i_id inv0))) (load INVOICES_FILE s))
    with (filter (keeps n) (load INVOICES_FILE s)).
  set (s2 := save INVOICES_FILE (filter (keeps n) (load INVOICES_FILE s)) s1).
  assert (Hinv : load INVOICES_FILE s2 =
                 map stringify_invoice (filter (keeps n) (load INVOICES_FILE s)))
    by reflexivity.
  assert (Hcl2 : load CLIENTS_FILE s2 = load CLIENTS_FILE s1) by reflexivity.
  rewrite Hcl in Hcl2. clear Hcl Hinv1. clearbody s2. clear s1.
  constructor.
  - rewrite Hinv, map_id_stringify_invoice. now apply NoDup_map_filter.
  - rewrite Hcl2, map_map.
    replace (map _ (load CLIENTS_FILE s)) with (map c_id (load CLIENTS_FILE s));
      [exact Hc|].
    apply map_ext. intros c. now destruct (c_id c =? i_clientId inv).
  - intros i' c'. rewrite Hinv, Hcl2. intros Hi' Hc' Href.
    apply in_stringify_invoices in Hi' as (i & Hiin & _ & Hu & Hci & _).
    apply in_updated_clients in Hc' as (c & Hcin & Hcase).
    assert (Hids : c_id c' = c_id c /\ c_userId c' = c_userId c).
    { destruct Hcase as [[_ ->]|[_ ->]]; now split. }
    destruct Hids as [Hcid Huid]. rewrite Hu, Huid.
    apply filter_In in Hiin as [Hiin _].
    apply Ho; [exact Hiin | exact Hcin | congruence].
  - intros i'. rewrite Hinv. intros Hi'.
    apply in_stringify_invoices in Hi' as (i & Hiin & _ & _ & _ & Htotal).
    apply filter_In in Hiin as [Hiin _].
    rewrite Htotal. destruct (Ht i Hiin) as [t ->]. now exists t.
  - rewrite Hinv. apply exact_range_stringify. now apply exact_range_filter.
  - intros c'. rewrite Hinv, Hcl2. intros Hc'.
    apply in_updated_clients in Hc' as (c & Hcin & Hcase).
    destruct (Ha c Hcin) as [Hcount Hpaid].
    rewrite count_of_stringify, paid_of_stringify.
    assert (Hids : c_id c' = c_id c)
      by (destruct Hcase as [[_ ->]|[_ ->]]; reflexivity).
    rewrite Hids.
    destruct (remove_one n inv _ (c_id c) Hi Hin Hid) as [-> ->].
    destruct Hcase as [[Ec ->]|[Ec ->]].
    + rewrite (Hdeleted c Hcin (eq_sym Ec)). simpl.
      rewrite <- Ec, Z.eqb_refl, Hz. split; reflexivity.
    + rewrite Hcount, Hpaid.
      assert (Hne : (i_clientId inv =? c_id c) = false)
        by (apply Z.eqb_neq; congruence).
      rewrite Hne, !Z.sub_0_r. split; reflexivity.
Qed.

Lemma step_preserves w op :
  well_formed (disk w) -> admissible (disk w) op -> well_formed (disk (step w op)).
Proof.
  intros Hwf Hadm. destruct op as [env u req|env u req].
  - rewrite step_create. now apply create_preserves.
  - rewrite step_delete. now apply delete_preserves.
Qed.

Lemma run_preserves ops : forall w,
  well_formed (disk w) -> admissible_run w ops -> well_formed (disk (run_ops ops w)).
Proof.
  induction ops as [|op ops IH]; intros w Hwf Hadm; [exact Hwf|].
  destruct Hadm as [Hop Hrest]. simpl. apply IH; [|exact Hrest].
  now apply step_preserves.
Qed.

Lemma admissible_prefix ops : forall w k,
  admissible_run w ops -> admissible_run w (firstn k ops).
Proof.
  induction ops as [|op ops IH]; intros w k H.
  - now rewrite firstn_nil.
  - destruct k as [|k]; [exact I|]. destruct H as [Hop Hrest].
    simpl. split; [exact Hop|]. now apply IH.
Qed.

(** C1 (as the code has it). Start from a state in which invoice ids are
    pairwise distinct, client ids are pairwise distinct, every invoice that
    names a client has that client's owner, every stored total is a number
    (an integer, as all numbers of this model), the invoices are in the
    range where doubles are exact (the absolute values of their totals add
    up to 2^53 at most, and there are 2^53 of them at most),
    and every client's [invoiceCount] and [totalPaid] are the count and the
    sum of the totals of the invoices naming it.  Run any sequence of invoice
    creations and deletions in which each creation takes an id not in use at
    that moment, carries an integer total, keeps the invoices in the exact
    range and, when the client it names exists, is made by that client's
    owner.  Then after every prefix of the sequence each client's
    [invoiceCount] is the number of invoices in the file that name it and
    its [totalPaid] is the sum of their totals.  Without the range the
    additions and subtractions of the handlers are rounded and the sums
    drift ([rounding_breaks_the_statistics]). *)
Theorem C1_aggregates_follow_the_invoices ops w k :
  well_formed (disk w) ->
  admissible_run w ops ->
  aggregates_hold (disk (run_ops (firstn k ops) w)).
Proof.
  intros Hwf Hadm. apply wf_aggregates.
  apply run_preserves; [exact Hwf|]. now apply admissible_prefix.
Qed.

(** ** The earlier server on the same requests *)

(** [express.js] stores the password as it was sent. *)
Lemma legacy_register_stores_raw_password env req w :
  find (same_email (b_email (body req))) (load USERS_FILE (disk w)) = None ->
  users_file (disk (snd (Legacy.post_api_register env req w))) =
    Some (load USERS_FILE (disk w) ++
          [mkUser None (b_name (body req)) (b_email (body req))
                  (b_password (body req)) (b_contactNumber (body req))
                  (b_address (body req)) 0])%list.
Proof.
  intros H. unfold Legacy.post_api_register, bind, ret, send, readJSONFile,
    writeJSONFile. cbn [disk fst snd]. rewrite H. reflexivity.
Qed.

(** [express.js] checks no token: a request without a header is served. *)
Lemma legacy_client_list_needs_no_token env b w :
  fst (Legacy.serve env (mkRequest GET ["api"; "clients"] None b None []) w) =
    mkResponse 200 (J_clients (load CLIENTS_FILE (disk w))).
Proof. reflexivity. Qed.

(** [express.js] answers success when asked to delete an invoice id that is
    not in the file, and rewrites the invoices file with what it held. *)
Lemma legacy_delete_missing_invoice_succeeds env req w :
  find (fun inv => id_is (parseInt (param_id req)) (i_id inv))
       (load INVOICES_FILE (disk w)) = None ->
  Legacy.delete_api_invoices_id env req w =
    (Done (mkResponse 200 J_success),
     mkWorld (save INVOICES_FILE (load INVOICES_FILE (disk w)) (disk w))
             (trace w ++ [Read INVOICES_FILE; Read CLIENTS_FILE;
                          Write INVOICES_FILE])).
Proof.
  intros H. unfold Legacy.delete_api_invoices_id, bind, ret, send,
    readJSONFile, writeJSONFile. cbn [disk trace fst snd]. rewrite H.
  cbn [disk trace fst snd]. rewrite <- !app_assoc. cbn [List.app].
  change (filter (fun inv => negb (id_is ?n (i_id inv))) ?l)
    with (filter (keeps n) l).
  rewrite filter_keeps_all; [reflexivity|].
  intros i Hi. apply (find_none _ _ H i Hi).
Qed.

(** [express.js] gives one answer to every failed login: the lookup tests
    email and password together. *)
Lemma legacy_login_failure env req w :
  find (fun u => String.eqb (u_email u) (b_email (body req))
                 && String.eqb (u_password u) (b_password (body req)))
       (load USERS_FILE (disk w)) = None ->
  Legacy.post_api_login env req w =
    (Done (mkResponse 401 (J_message false "Invalid credentials")),
     mkWorld (disk w) (trace w ++ [Read USERS_FILE])).
Proof.
  intros H. unfold Legacy.post_api_login, bind, ret, send, readJSONFile.
  cbn [disk trace fst snd]. now rewrite H.
Qed.

(** The dashboard of [express.js] reads the two files and writes nothing. *)
Lemma legacy_dashboard_reads_only env req w :
  Legacy.get_api_dashboard env req w =
    (Done (mkResponse 200 (J_stats
       (dashboard_stats (load CLIENTS_FILE (disk w))
                        (load INVOICES_FILE (disk w))))),
     mkWorld (disk w) (trace w ++ [Read CLIENTS_FILE; Read INVOICES_FILE])).
Proof.
  unfold Legacy.get_api_dashboard, bind, ret, send, readJSONFile.
  cbn [disk trace fst snd]. now rewrite <- app_assoc.
Qed.

(** ** What no request does: properties of the whole stack *)

Lemma dispatch_respects (P : World -> World -> Prop) (Q : Request -> Prop) stack :
  (forall w, P w w) ->
  (forall a b c, P a b -> P b c -> P a c) ->
  (forall r r', url r' = url r -> method r' = method r -> Q r -> Q r') ->
  (forall l, In l stack ->
     (forall req, Q req -> applies l req = false) \/ respects P (run l)) ->
  forall env req w, Q req -> P w (snd (dispatch stack env req w)).
Proof.
  intros Hrefl Htrans HQ. induction stack as [|l rest IH]; intros Hl env req w Hq.
  - apply Hrefl.
  - rewrite dispatch_cons.
    assert (Hrest : forall l', In l' rest ->
              (forall r, Q r -> applies l' r = false) \/ respects P (run l'))
      by (intros l' Hin; apply Hl; now right).
    destruct (applies l req) eqn:Ha; [|now apply IH].
    destruct (Hl l (or_introl eq_refl)) as [Hno|Hresp].
    + rewrite (Hno req Hq) in Ha. discriminate.
    + destruct (Hresp env req w) as [Hp Hnext].
      destruct (run l env req w) as [[req'|res] w']; simpl in *.
      * destruct (Hnext req' eq_refl) as [Hu Hm].
        apply (Htrans _ w'); [exact Hp|]. apply IH; [exact Hrest|].
        now apply (HQ req).
      * exact Hp.
Qed.

Lemma respects_chain (P : World -> World -> Prop) hs :
  (forall w, P w w) ->
  (forall a b c, P a b -> P b c -> P a c) ->
  Forall (respects P) hs ->
  respects P (chain hs).
Proof.
  intros Hrefl Htrans. induction hs as [|h hs IH]; intros Hall env req w.
  - simpl. split; [apply Hrefl|]. intros req' H. injection H as <-. now split.
  - inversion Hall as [|x xs Hh Hhs]; subst x xs.
    cbn [chain]. unfold bind.
    destruct (Hh env req w) as [Hp Hnext].
    destruct (h env req w) as [[req1|res] w1]; simpl in *.
    + destruct (Hnext req1 eq_refl) as [Hu Hm].
      destruct (IH Hhs env req1 w1) as [Hp1 Hnext1]. split.
      * now apply (Htrans _ w1).
      * intros req' H. destruct (Hnext1 req' H) as [Hu' Hm'].
        split; congruence.
    + split; [exact Hp|]. discriminate.
Qed.

Lemma respects_as_user (P : World -> World -> Prop) failure h :
  (forall w, P w w) ->
  (forall u, respects P (h u)) ->
  respects P (as_user failure h).
Proof.
  intros Hrefl Hh env req w. unfold as_user.
  destruct (user req) as [u|]; [apply Hh|].
  simpl. split; [apply Hrefl|]. discriminate.
Qed.

(** A handler that leaves the world as it is respects every reflexive
    relation. *)
Lemma respects_pure (P : World -> World -> Prop) (h : Handler) :
  (forall w, P w w) ->
  (forall env req w, snd (h env req w) = w /\
     forall req', fst (h env req w) = Next req' ->
       url req' = url req /\ method req' = method req) ->
  respects P h.
Proof.
  intros Hrefl Hh env req w. destruct (Hh env req w) as [-> Hn].
  split; [apply Hrefl | exact Hn].
Qed.

Lemma authenticateToken_pure :
  forall env req w, snd (authenticateToken env req w) = w /\
    forall req', fst (authenticateToken env req w) = Next req' ->
      url req' = url req /\ method req' = method req.
Proof.
  intros env req w. split; [apply authenticateToken_world|].
  intros req' H. apply authenticateToken_next in H as [u ->]. now split.
Qed.

Lemma validated_pure errors sanitized :
  forall env req w, snd (validated errors sanitized env req w) = w /\
    forall req', fst (validated errors sanitized env req w) = Next req' ->
      url req' = url req /\ method req' = method req.
Proof.
  intros env req w. split; [reflexivity|].
  intros req' H. injection H as <-. now split.
Qed.

Lemma handleValidationErrors_pure :
  forall env req w, snd (handleValidationErrors env req w) = w /\
    forall req', fst (handleValidationErrors env req w) = Next req' ->
      url req' = url req /\ method req' = method req.
Proof.
  intros env req w. unfold handleValidationErrors.
  destruct (validation_errors req); simpl; split; try reflexivity.
  - intros req' H. injection H as <-. now split.
  - discriminate.
Qed.

(** A handler that always answers. *)
Lemma respects_answer (P : World -> World -> Prop) (h : Handler) :
  (forall env req w, P w (snd (h env req w)) /\
                     exists res, fst (h env req w) = Done res) ->
  respects P h.
Proof.
  intros Hh env req w. destruct (Hh env req w) as [Hp [res Hr]].
  split; [exact Hp|]. rewrite Hr. discriminate.
Qed.

(** *** What each handler does to the three files *)

Lemma post_api_login_effect env req w :
  disk (snd (post_api_login env req w)) = disk w /\
  trace (snd (post_api_login env req w)) = (trace w ++ [Read USERS_FILE])%list /\
  exists res, fst (post_api_login env req w) = Done res.
Proof.
  unfold post_api_login. run_io. case_find; simpl.
  - destruct (bcrypt_compare _ _); simpl; eauto.
  - eauto.
Qed.

Lemma post_api_register_effect env req w :
  let w' := snd (post_api_register env req w) in
  clients_file (disk w') = clients_file (disk w) /\
  invoices_file (disk w') = invoices_file (disk w) /\
  (exists added, load USERS_FILE (disk w') =
                 (load USERS_FILE (disk w) ++ added)%list /\
                 (added = [] \/
                  added = [new_user env (body req) (load USERS_FILE (disk w))])) /\
  (exists t, trace w' = (trace w ++ t)%list /\ filter touches_data t = []) /\
  exists res, fst (post_api_register env req w) = Done res.
Proof.
  unfold post_api_register, new_user. run_io. case_find; simpl.
  - split; [reflexivity|]. split; [reflexivity|]. split; [|split].
    + exists []. rewrite app_nil_r. auto.
    + exists [Read USERS_FILE]. auto.
    + eauto.
  - split; [reflexivity|]. split; [reflexivity|]. split; [|split].
    + eexists. split; [reflexivity|]. now right.
    + exists [Read USERS_FILE; Write USERS_FILE]. rewrite <- app_assoc. auto.
    + eauto.
Qed.

Lemma post_api_clients_effect u env req w :
  let w' := snd (post_api_clients u env req w) in
  users_file (disk w') = users_file (disk w) /\
  invoices_file (disk w') = invoices_file (disk w) /\
  exists res, fst (post_api_clients u env req w) = Done res.
Proof. unfold post_api_clients. run_io. eauto. Qed.

Lemma delete_api_clients_id_effect u env req w :
  let w' := snd (delete_api_clients_id u env req w) in
  users_file (disk w') = users_file (disk w) /\
  invoices_file (disk w') = invoices_file (disk w) /\
  exists res, fst (delete_api_clients_id u env req w) = Done res.
Proof.
  unfold delete_api_clients_id. run_io.
  destruct (existsb _ _); simpl; eauto.
Qed.

Lemma get_api_invoices_run u env req w :
  get_api_invoices u env req w =
    (Done (mkResponse 200
             (J_invoices (filter (owned_invoice u) (load INVOICES_FILE (disk w))))),
     mkWorld (disk w) (trace w ++ [Read INVOICES_FILE])).
Proof. reflexivity. Qed.

Lemma users_file_after_create env u b s :
  users_file (after_create env u b s) = users_file s.
Proof. unfold after_create. case_find; reflexivity. Qed.

Lemma users_file_after_delete u n s :
  users_file (after_delete u n s) = users_file s.
Proof.
  unfold after_delete. case_find; [|reflexivity].
  case_find; reflexivity.
Qed.

Lemma post_api_invoices_effect u env req w :
  users_file (disk (snd (post_api_invoices u env req w))) = users_file (disk w) /\
  exists res, fst (post_api_invoices u env req w) = Done res.
Proof.
  destruct (post_api_invoices_run u env req w) as [t ->]. simpl.
  split; [apply users_file_after_create | eauto].
Qed.

Lemma delete_api_invoices_id_effect u env req w :
  users_file (disk (snd (delete_api_invoices_id u env req w))) = users_file (disk w) /\
  exists res, fst (delete_api_invoices_id u env req w) = Done res.
Proof.
  split.
  - change (snd (delete_api_invoices_id u env req w))
      with (step w (Delete env u req)).
    rewrite step_delete. apply users_file_after_delete.
  - unfold delete_api_invoices_id, update_client_stats. run_io.
    case_find; simpl; [|eauto]. case_find; simpl; eauto.
Qed.

(** *** Without a valid token, no access to clients or invoices *)

Lemma data_untouched_refl w : data_untouched w w.
Proof. repeat split. Qed.

Lemma data_untouched_trans a b c :
  data_untouched a b -> data_untouched b c -> data_untouched a c.
Proof.
  intros (H1 & H2 & H3) (K1 & K2 & K3). repeat split; congruence.
Qed.

Lemma login_chain_untouched :
  respects data_untouched
    (chain [validateLogin; handleValidationErrors; post_api_login]).
Proof.
  apply respects_chain;
    [exact data_untouched_refl | exact data_untouched_trans |].
  apply Forall_cons; [|apply Forall_cons; [|apply Forall_cons; [|constructor]]].
  - apply respects_pure; [exact data_untouched_refl | apply validated_pure].
  - apply respects_pure;
      [exact data_untouched_refl | apply handleValidationErrors_pure].
  - apply respects_answer. intros env req w.
    destruct (post_api_login_effect env req w) as (Hd & Ht & Hr).
    split; [|exact Hr]. unfold data_untouched. rewrite Hd, Ht, filter_app.
    simpl. now rewrite app_nil_r.
Qed.

Lemma register_chain_untouched :
  respects data_untouched
    (chain [validateRegister; handleValidationErrors; post_api_register]).
Proof.
  apply respects_chain;
    [exact data_untouched_refl | exact data_untouched_trans |].
  apply Forall_cons; [|apply Forall_cons; [|apply Forall_cons; [|constructor]]].
  - apply respects_pure; [exact data_untouched_refl | apply validated_pure].
  - apply respects_pure;
      [exact data_untouched_refl | apply handleValidationErrors_pure].
  - apply respects_answer. intros env req w.
    destruct (post_api_register_effect env req w)
      as (Hc & Hi & _ & (t & Ht & Hft) & Hr).
    split; [|exact Hr]. unfold data_untouched. rewrite Hc, Hi, Ht, filter_app, Hft.
    now rewrite app_nil_r.
Qed.

Lemma guard_needs_protected path req :
  In path [["api"; "clients"]; ["api"; "invoices"]; ["api"; "dashboard"]] ->
  protected req = false ->
  applies (use path authenticateToken) req = false.
Proof.
  unfold protected. intros Hin Hp.
  apply orb_false_elim in Hp as [Hp H3]. apply orb_false_elim in Hp as [H1 H2].
  destruct Hin as [<-|[<-|[<-|[]]]]; assumption.
Qed.

Lemma unprotected_layers l :
  In l app ->
  (forall req, protected req = false -> applies l req = false) \/
  respects data_untouched (run l).
Proof.
  intros Hin.
  assert (Hsplit : In l (firstn 2 app) \/ In l (firstn 3 (skipn 2 app)) \/
                   In l (firstn 7 (skipn 5 app)) \/ In l (skipn 12 app)).
  { rewrite <- (firstn_skipn 2 app) in Hin. apply in_app_or in Hin as [H|H];
      [now left|].
    rewrite <- (firstn_skipn 3 (skipn 2 app)) in H.
    apply in_app_or in H as [H|H]; [now right; left|].
    rewrite skipn_skipn in H. simpl Nat.add in H.
    rewrite <- (firstn_skipn 7 (skipn 5 app)) in H.
    apply in_app_or in H as [H|H]; [now right; right; left|].
    rewrite skipn_skipn in H. now right; right; right. }
  destruct Hsplit as [H|[H|[H|H]]].
  - right. cbn [app firstn] in H. destruct H as [<-|[<-|[]]].
    + exact login_chain_untouched.
    + exact register_chain_untouched.
  - left. intros req Hp. cbn [app skipn firstn] in H.
    destruct H as [<-|[<-|[<-|[]]]]; apply guard_needs_protected; simpl; auto.
  - left. intros req Hp. destruct (applies l req) eqn:Ha; [|reflexivity].
    rewrite (data_routes_are_protected l req H Ha) in Hp. discriminate.
  - right. cbn [app skipn] in H.
    destruct H as [<-|[<-|[<-|[]]]];
      (apply respects_pure; [exact data_untouched_refl|]);
      intros env req w; (split; [reflexivity | discriminate]).
Qed.

(** X1. A request outside the three protected prefixes, or one whose token is
    refused, leaves the clients and invoices files as they were and neither
    reads nor writes them, whatever its method, url and body. *)
Theorem X1_no_data_access_without_token env req w :
  protected req = false \/
  (exists res, fst (authenticateToken env req w) = Done res) ->
  data_untouched w (snd (serve env req w)).
Proof.
  intros H. destruct (protected req) eqn:Hp.
  - destruct H as [H|[res H]]; [discriminate|].
    rewrite (serve_rejected env req w res Hp H). apply data_untouched_refl.
  - unfold serve.
    apply (dispatch_respects data_untouched (fun r => protected r = false));
      [exact data_untouched_refl | exact data_untouched_trans | | | exact Hp].
    + intros r r' Hu _. unfold protected. now rewrite Hu.
    + intros l Hin. now apply unprotected_layers.
Qed.

(** *** A GET request writes nothing *)

Lemma nothing_written_refl w : nothing_written w w.
Proof. split; reflexivity. Qed.

Lemma nothing_written_trans a b c :
  nothing_written a b -> nothing_written b c -> nothing_written a c.
Proof. intros [H1 H2] [K1 K2]. split; congruence. Qed.

Lemma reads_write_nothing w (fs : list File) :
  nothing_written w (mkWorld (disk w) (trace w ++ map Read fs)).
Proof. split; [reflexivity|]. apply filter_is_write_reads. Qed.

Lemma get_layers l :
  In l app ->
  (forall req, method req = GET -> applies l req = false) \/
  respects nothing_written (run l).
Proof.
  intros Hin.
  assert (Ha : respects nothing_written authenticateToken)
    by (apply respects_pure;
        [exact nothing_written_refl | exact authenticateToken_pure]).
  assert (Hgc : respects nothing_written get_api_clients).
  { apply respects_answer. intros env req w. rewrite get_api_clients_run.
    split; [exact (reads_write_nothing w [CLIENTS_FILE]) | simpl; eauto]. }
  assert (Hgi : forall u, respects nothing_written (get_api_invoices u)).
  { intros u. apply respects_answer. intros env req w.
    rewrite get_api_invoices_run.
    split; [exact (reads_write_nothing w [INVOICES_FILE]) | simpl; eauto]. }
  assert (Hgd : forall u, respects nothing_written (get_api_dashboard u)).
  { intros u. apply respects_answer. intros env req w.
    rewrite get_api_dashboard_run.
    split; [exact (reads_write_nothing w [CLIENTS_FILE; INVOICES_FILE]) | simpl; eauto]. }
  cbn [app] in Hin.
  repeat (destruct Hin as [<-|Hin];
    [first
       [ left; intros req Hm; cbn [applies route route_id]; rewrite Hm;
         reflexivity
       | right; cbn [run use route route_id];
         first
           [ exact Ha | exact Hgc
           | apply respects_as_user; [exact nothing_written_refl | assumption]
           | apply respects_pure; [exact nothing_written_refl|];
             intros env req w; split; [reflexivity | discriminate] ] ]
    |]).
  destruct Hin.
Qed.

(** X2. Serving a GET request, whatever its url, header and body, leaves the
    three files as they were and writes nothing. *)
Theorem X2_get_requests_write_nothing env req w :
  method req = GET ->
  nothing_written w (snd (serve env req w)).
Proof.
  intros Hm. unfold serve.
  apply (dispatch_respects nothing_written (fun r => method r = GET));
    [exact nothing_written_refl | exact nothing_written_trans | | | exact Hm].
  - intros r r' _ Hm' Hr. congruence.
  - intros l Hin. now apply get_layers.
Qed.

(** *** User records are kept *)

Lemma users_kept_refl w : users_kept w w.
Proof. exists []. now rewrite app_nil_r. Qed.

Lemma users_kept_trans a b c :
  users_kept a b -> users_kept b c -> users_kept a c.
Proof.
  intros [l1 H1] [l2 H2]. exists (l1 ++ l2)%list.
  now rewrite H2, H1, app_assoc.
Qed.

Lemma numbering_kept_refl w : numbering_kept w w.
Proof. intros H. exact H. Qed.

Lemma numbering_kept_trans a b c :
  numbering_kept a b -> numbering_kept b c -> numbering_kept a c.
Proof. unfold numbering_kept. auto. Qed.

Lemma load_users_same s s' :
  users_file s' = users_file s -> load USERS_FILE s' = load USERS_FILE s.
Proof. intros H. simpl. now rewrite H. Qed.

Lemma users_numbered_snoc env b users :
  map u_id users = map (fun k => Some (Z.of_nat k)) (seq 1 (List.length users)) ->
  map u_id (users ++ [new_user env b users]) =
  map (fun k => Some (Z.of_nat k)) (seq 1 (List.length (users ++ [new_user env b users]))).
Proof.
  intros H. rewrite length_app. simpl List.length.
  rewrite seq_app, !map_app, <- H. simpl. do 3 f_equal. lia.
Qed.

(** Every layer of the stack respects a relation that holds whenever the
    users file is unchanged and that registration respects. *)
Lemma all_layers (P : World -> World -> Prop) l :
  (forall w, P w w) ->
  (forall a b c, P a b -> P b c -> P a c) ->
  (forall w w', users_file (disk w') = users_file (disk w) -> P w w') ->
  respects P post_api_register ->
  In l app ->
  respects P (run l).
Proof.
  intros Hrefl Htrans Hsame Hreg Hin.
  assert (Hv : forall e s, respects P (validated e s))
    by (intros e s; apply respects_pure; [exact Hrefl | apply validated_pure]).
  assert (Hh : respects P handleValidationErrors)
    by (apply respects_pure; [exact Hrefl | apply handleValidationErrors_pure]).
  assert (Ha : respects P authenticateToken)
    by (apply respects_pure; [exact Hrefl | exact authenticateToken_pure]).
  assert (Hchain : forall e s h, respects P h ->
            respects P (chain [validated e s; handleValidationErrors; h])).
  { intros e s h Hresp. apply respects_chain; [exact Hrefl | exact Htrans |].
    apply Forall_cons; [apply Hv|].
    apply Forall_cons; [exact Hh|]. apply Forall_cons; [exact Hresp|constructor]. }
  assert (Hlogin : respects P post_api_login).
  { apply respects_answer. intros env req w.
    destruct (post_api_login_effect env req w) as (Hd & _ & Hr).
    split; [|exact Hr]. apply Hsame. now rewrite Hd. }
  assert (Hgc : respects P get_api_clients).
  { apply respects_answer. intros env req w. rewrite get_api_clients_run.
    split; [now apply Hsame | simpl; eauto]. }
  assert (Hpc : forall u, respects P (post_api_clients u)).
  { intros u. apply respects_answer. intros env req w.
    destruct (post_api_clients_effect u env req w) as (Hu & _ & Hr).
    split; [now apply Hsame | exact Hr]. }
  assert (Hdc : forall u, respects P (delete_api_clients_id u)).
  { intros u. apply respects_answer. intros env req w.
    destruct (delete_api_clients_id_effect u env req w) as (Hu & _ & Hr).
    split; [now apply Hsame | exact Hr]. }
  assert (Hgi : forall u, respects P (get_api_invoices u)).
  { intros u. apply respects_answer. intros env req w.
    rewrite get_api_invoices_run. split; [now apply Hsame | simpl; eauto]. }
  assert (Hpi : forall u, respects P (post_api_invoices u)).
  { intros u. apply respects_answer. intros env req w.
    destruct (post_api_invoices_effect u env req w) as (Hu & Hr).
    split; [now apply Hsame | exact Hr]. }
  assert (Hdi : forall u, respects P (delete_api_invoices_id u)).
  { intros u. apply respects_answer. intros env req w.
    destruct (delete_api_invoices_id_effect u env req w) as (Hu & Hr).
    split; [now apply Hsame | exact Hr]. }
  assert (Hgd : forall u, respects P (get_api_dashboard u)).
  { intros u. apply respects_answer. intros env req w.
    rewrite get_api_dashboard_run. split; [now apply Hsame | simpl; eauto]. }
  cbn [app] in Hin.
  repeat (destruct Hin as [<-|Hin];
    [cbn [run use route route_id];
     first [ apply Hchain; first [exact Hlogin | exact Hreg
                                 | apply respects_as_user; assumption]
           | exact Ha | exact Hgc
           | apply respects_as_user; assumption
           | apply respects_pure; [exact Hrefl|];
             intros env req w; split; [reflexivity | discriminate] ]
    |]).
  destruct Hin.
Qed.

Lemma register_keeps_users : respects users_kept post_api_register.
Proof.
  apply respects_answer. intros env req w.
  destruct (post_api_register_effect env req w)
    as (_ & _ & (added & Hl & _) & _ & Hr).
  split; [now exists added | exact Hr].
Qed.

Lemma register_keeps_numbering : respects numbering_kept post_api_register.
Proof.
  apply respects_answer. intros env req w.
  destruct (post_api_register_effect env req w)
    as (_ & _ & (added & Hl & Hadded) & _ & Hr).
  split; [|exact Hr]. intros Hn. unfold users_numbered in *. rewrite Hl.
  destruct Hadded as [->| ->].
  - now rewrite app_nil_r.
  - now apply users_numbered_snoc.
Qed.

Lemma NoDup_map_injective {A B} (f : A -> B) (l : list A) :
  (forall x y, f x = f y -> x = y) -> NoDup l -> NoDup (map f l).
Proof.
  intros Hinj. induction l as [|x l IH]; intros Hnd; simpl; [constructor|].
  inversion Hnd as [|y ys Hx Hnd' Heq]; subst y ys. constructor; [|now apply IH].
  intros Hin. apply in_map_iff in Hin as (y & Hy & Hin).
  apply Hinj in Hy. now subst y.
Qed.

(** X3. Whatever the request, the user records present before it are present
    after it, unchanged and in the same places: the server never deletes or
    edits a user. *)
Theorem X3_users_are_never_removed env req w :
  users_kept w (snd (serve env req w)).
Proof.
  unfold serve.
  apply (dispatch_respects users_kept (fun _ => True));
    [exact users_kept_refl | exact users_kept_trans | auto | | exact I].
  intros l Hin. right.
  apply all_layers;
    [exact users_kept_refl | exact users_kept_trans | |
     exact register_keeps_users | exact Hin].
  intros a b H. exists []. rewrite app_nil_r. now apply load_users_same.
Qed.

(** X4. When the k-th user record has id k, this is still so after any
    request: registration numbers users 1, 2, 3, ... and nothing else
    touches the users file, so user ids stay pairwise distinct. *)
Theorem X4_user_ids_stay_numbered env req w :
  users_numbered (disk w) ->
  users_numbered (disk (snd (serve env req w))) /\
  NoDup (map u_id (load USERS_FILE (disk (snd (serve env req w))))).
Proof.
  intros Hn.
  assert (Hafter : users_numbered (disk (snd (serve env req w)))).
  { revert Hn. change (numbering_kept w (snd (serve env req w))). unfold serve.
    apply (dispatch_respects numbering_kept (fun _ => True));
      [exact numbering_kept_refl | exact numbering_kept_trans | auto | | exact I].
    intros l Hin. right.
    apply all_layers;
      [exact numbering_kept_refl | exact numbering_kept_trans | |
       exact register_keeps_numbering | exact Hin].
    intros a b H Ha. unfold users_numbered in *.
    now rewrite (load_users_same _ _ H). }
  split; [exact Hafter|].
  rewrite Hafter. apply NoDup_map_injective; [|apply seq_NoDup].
  intros x y H. injection H as H. now apply Nat2Z.inj.
Qed.

(** ** Validation comes before the handler *)

Lemma chain_invalid errors sanitized (h : Handler) env req w :
  validation_errors req = [] ->
  errors (body req) <> [] ->
  chain [validated errors sanitized; handleValidationErrors; h] env req w =
    (Done (mkResponse 400 (J_validation (errors (body req)))), w).
Proof.
  intros He Hv. destruct req as [m ur a bd us ve]. simpl in He, Hv. subst ve.
  cbn [chain]. unfold validated, handleValidationErrors, bind, ret, set_validated.
  simpl. destruct (errors bd) as [|e es]; [congruence | reflexivity].
Qed.

(** X5. A create request for a client or an invoice whose token passes but whose
    body fails validation is answered 400 with the list of rejected fields;
    the handler does not run: no file is read or written. *)
Theorem X5_invalid_create_is_rejected_before_data env header b u w :
  (fst (authenticateToken env (request_of ClientCreate header b) w) =
     Next (set_user (request_of ClientCreate header b) u) ->
   validateClient_errors b <> [] ->
   serve env (request_of ClientCreate header b) w =
     (mkResponse 400 (J_validation (validateClient_errors b)), w)) /\
  (fst (authenticateToken env (request_of InvoiceCreate header b) w) =
     Next (set_user (request_of InvoiceCreate header b) u) ->
   validateInvoice_errors b <> [] ->
   serve env (request_of InvoiceCreate header b) w =
     (mkResponse 400 (J_validation (validateInvoice_errors b)), w)).
Proof.
  split; intros Hok Hv.
  - apply (serve_operation ClientCreate env header b u w _ _ Hok).
    cbn [handler_of]. now apply chain_invalid.
  - apply (serve_operation InvoiceCreate env header b u w _ _ Hok).
    cbn [handler_of]. now apply chain_invalid.
Qed.

(** X6. A login or registration whose body fails validation is answered 400
    with the list of rejected fields, and the users file is not even
    read. *)
Theorem X6_invalid_credentials_form_is_rejected env header b w :
  (validateLogin_errors b <> [] ->
   serve env (login_request header b) w =
     (mkResponse 400 (J_validation (validateLogin_errors b)), w)) /\
  (validateRegister_errors b <> [] ->
   serve env (register_request header b) w =
     (mkResponse 400 (J_validation (validateRegister_errors b)), w)).
Proof.
  split; intros Hv; unfold serve, app.
  - pose proof (chain_invalid validateLogin_errors validateLogin_body
                  post_api_login env (login_request header b) w eq_refl Hv) as H.
    layer. cbn [run route]. unfold validateLogin, login_request in *.
    cbn [body] in H. now rewrite H.
  - pose proof (chain_invalid validateRegister_errors validateRegister_body
                  post_api_register env (register_request header b) w eq_refl Hv)
      as H.
    layer. layer. cbn [run route]. unfold validateRegister, register_request in *.
    cbn [body] in H. now rewrite H.
Qed.

(** ** Registering, then logging in *)

Lemma find_app_new {A} (p : A -> bool) (l : list A) (x : A) :
  find p l = None -> p x = true -> find p (l ++ [x]) = Some x.
Proof.
  induction l as [|y l IH]; simpl; intros Hn Hx.
  - now rewrite Hx.
  - destruct (p y); [discriminate|]. now apply IH.
Qed.

Lemma register_passes_login_validation b :
  validateRegister_errors b = [] -> validateLogin_errors b = [].
Proof.
  unfold validateRegister_errors, validateLogin_errors.
  destruct (between 2 100 (len (trim (b_name b)))); [|discriminate].
  destruct (isEmail (b_email b)); [|discriminate].
  destruct (6 <=? len (b_password b)); [|discriminate].
  reflexivity.
Qed.

(** X7. After a registration that succeeded, logging in with the same email and
    password succeeds, given that bcrypt accepts a password against its own
    hash: the answer is 200 with a token and the view of the new user, whose
    id is the number of users plus one. *)
Theorem X7_login_after_register_succeeds env1 env2 h1 h2 b w :
  validateRegister_errors b = [] ->
  find (same_email (normalizeEmail (b_email b))) (load USERS_FILE (disk w)) = None ->
  bcrypt_compare (b_password b)
                 (bcrypt_hash (salt env1) (b_password b) 10) = true ->
  let w1 := snd (serve env1 (register_request h1 b) w) in
  let user :=
    new_user env1 (validateRegister_body b) (load USERS_FILE (disk w)) in
  fst (serve env2 (login_request h2 b) w1) =
    mkResponse 200
      (J_session (issued env2 user)
                 (mkUserView (Some (Z.of_nat (List.length (load USERS_FILE (disk w))) + 1))
                             (normalizeEmail (b_email b))
                             (escape (trim (b_name b))))) /\
  disk (snd (serve env2 (login_request h2 b) w1)) = disk w1.
Proof.
  intros V Hnew Hcmp w1 user.
  set (rreq := set_validated (register_request h1 b) (validateRegister_body b) []).
  assert (Hw1 : w1 = _) by
    exact (f_equal snd
             (serve_register env1 h1 b w _ _ V (register_new env1 rreq w Hnew))).
  simpl in Hw1.
  set (lreq := set_validated (login_request h2 b) (validateLogin_body b) []).
  assert (Hfind : find (same_email (b_email (body lreq)))
                       (load USERS_FILE (disk w1)) = Some user).
  { rewrite Hw1.
    change (load USERS_FILE (disk (mkWorld (save USERS_FILE ?l ?s) ?t))) with l.
    apply find_app_new; [exact Hnew|].
    unfold same_email. simpl. apply String.eqb_refl. }
  assert (Hc : bcrypt_compare (b_password (body lreq)) (u_password user) = true)
    by exact Hcmp.
  rewrite (serve_login env2 h2 b w1 _ _ (register_passes_login_validation b V)
             (login_success env2 lreq w1 user Hfind Hc)).
  split; reflexivity.
Qed.

(** ** Listing invoices *)

(** X8. The invoice list of a caller whose token passes holds exactly the
    invoices of the file whose [userId] is the caller's id, in file order
    (an invoice of another user is never listed, none of the caller's is
    left out); the request reads the invoices file and writes nothing. *)
Theorem X8_invoice_list_is_the_callers env header b u w :
  let req := request_of InvoiceList header b in
  fst (authenticateToken env req w) = Next (set_user req u) ->
  exists l,
    serve env req w =
      (mkResponse 200 (J_invoices l),
       mkWorld (disk w) (trace w ++ [Read INVOICES_FILE])) /\
    l = filter (fun inv => optZ_eqb (i_userId inv) (cl_id u))
               (load INVOICES_FILE (disk w)) /\
    (forall inv, In inv l <->
       In inv (load INVOICES_FILE (disk w)) /\ i_userId inv = cl_id u).
Proof.
  intros req Hok. subst req.
  exists (filter (owned_invoice u) (load INVOICES_FILE (disk w))). split; [|split].
  - apply (serve_operation InvoiceList env header b u w _ _ Hok).
    cbn [handler_of]. unfold as_user. cbn [user set_user].
    apply get_api_invoices_run.
  - reflexivity.
  - intros inv. rewrite filter_In. unfold owned_invoice.
    now rewrite optZ_eqb_eq.
Qed.

(** ** Deleting a client *)

Lemma authenticateToken_any_world env req w w' :
  fst (authenticateToken env req w') = fst (authenticateToken env req w).
Proof.
  unfold authenticateToken.
  destruct (bearer (authorization req)) as [[|a t]|]; try reflexivity.
  destruct (jwt_verify _ _ _); reflexivity.
Qed.

Lemma delete_client_missing u env req w :
  existsb (fun c => id_is (parseInt (param_id req)) (c_id c) && owned_client u c)
          (load CLIENTS_FILE (disk w)) = false ->
  delete_api_clients_id u env req w =
    (Done (mkResponse 404 (J_error "Client not found")),
     mkWorld (disk w) (trace w ++ [Read CLIENTS_FILE])).
Proof.
  intros H. unfold delete_api_clients_id. run_io. now rewrite H.
Qed.

Lemma delete_client_found u env req w :
  existsb (fun c => id_is (parseInt (param_id req)) (c_id c) && owned_client u c)
          (load CLIENTS_FILE (disk w)) = true ->
  delete_api_clients_id u env req w =
    (Done (mkResponse 200 J_success),
     mkWorld (save CLIENTS_FILE
                (filter (fun c => negb (id_is (parseInt (param_id req)) (c_id c)))
                        (load CLIENTS_FILE (disk w)))
                (disk w))
             (trace w ++ [Read CLIENTS_FILE; Write CLIENTS_FILE])).
Proof.
  intros H. unfold delete_api_clients_id. run_io. rewrite H. simpl.
  now rewrite <- app_assoc.
Qed.

Lemma no_owned_client u n clients :
  (forall c, In c clients -> n = Some (c_id c) -> c_userId c <> cl_id u) ->
  existsb (fun c => id_is n (c_id c) && owned_client u c) clients = false.
Proof.
  intros H. destruct (existsb _ clients) eqn:E; [|reflexivity].
  apply existsb_exists in E as (c & Hin & Hc).
  apply andb_prop in Hc as [Hid Hown].
  destruct n as [k|]; [|discriminate]. simpl in Hid. apply Z.eqb_eq in Hid.
  unfold owned_client in Hown. apply optZ_eqb_eq in Hown.
  exfalso. apply (H c Hin); congruence.
Qed.

Lemma some_owned_client u n clients c :
  In c clients -> n = Some (c_id c) -> c_userId c = cl_id u ->
  existsb (fun c => id_is n (c_id c) && owned_client u c) clients = true.
Proof.
  intros Hin -> Hown. apply existsb_exists. exists c. split; [exact Hin|].
  simpl. rewrite Z.eqb_refl. simpl. unfold owned_client. now apply optZ_eqb_eq.
Qed.

Lemma id_gone_after_filter n (clients : list Client) c :
  In c (map stringify_client
          (filter (fun c => negb (id_is n (c_id c))) clients)) ->
  n <> Some (c_id c).
Proof.
  intros Hin. apply in_map_iff in Hin as (c0 & <- & Hin).
  apply filter_In in Hin as [_ Hkeep]. intros ->. simpl in Hkeep.
  rewrite Z.eqb_refl in Hkeep. discriminate.
Qed.

(** X9. A caller whose token passes and who owns a client with the id asked for
    gets 200; afterwards no client with that id is left in the file, whoever
    owned it, and the other clients are kept in order.  The invoices file
    is not touched: invoices naming the deleted client stay. *)
Theorem X9_client_delete_removes_the_id env header b id u w c :
  let req := request_of (ClientDelete id) header b in
  fst (authenticateToken env req w) = Next (set_user req u) ->
  In c (load CLIENTS_FILE (disk w)) ->
  parseInt id = Some (c_id c) ->
  c_userId c = cl_id u ->
  let w' := snd (serve env req w) in
  fst (serve env req w) = mkResponse 200 J_success /\
  load CLIENTS_FILE (disk w') =
    map stringify_client
        (filter (fun c' => negb (c_id c' =? c_id c)) (load CLIENTS_FILE (disk w))) /\
  (forall c', In c' (load CLIENTS_FILE (disk w')) -> c_id c' <> c_id c) /\
  invoices_file (disk w') = invoices_file (disk w) /\
  users_file (disk w') = users_file (disk w).
Proof.
  intros req Hok Hin Hid Hown w'.
  pose proof (some_owned_client u (parseInt id) _ c Hin Hid Hown) as Hex.
  pose proof (delete_client_found u env (set_user req u) w Hex) as Hd.
  subst w' req.
  rewrite (serve_operation (ClientDelete id) env header b u w _ _ Hok Hd).
  cbn [fst snd disk param_id request_of set_user url nth].
  change (load CLIENTS_FILE (save CLIENTS_FILE ?l ?s)) with (map stringify_client l).
  rewrite Hid. cbn [id_is]. repeat split.
  intros c' Hc' E.
  apply (id_gone_after_filter (Some (c_id c)) _ c' Hc'). now rewrite E.
Qed.

(** X10. A caller whose token passes but who owns no client with the id asked
    for (no such id, another owner's client, or an id that is not a number)
    gets 404 "Client not found"; the three files are unchanged and nothing
    is written. *)
Theorem X10_client_delete_of_unowned_is_not_found env header b id u w :
  let req := request_of (ClientDelete id) header b in
  fst (authenticateToken env req w) = Next (set_user req u) ->
  (forall c, In c (load CLIENTS_FILE (disk w)) ->
             parseInt id = Some (c_id c) -> c_userId c <> cl_id u) ->
  serve env req w =
    (mkResponse 404 (J_error "Client not found"),
     mkWorld (disk w) (trace w ++ [Read CLIENTS_FILE])).
Proof.
  intros req Hok Hnone.
  pose proof (no_owned_client u (parseInt id) _ Hnone) as Hex.
  pose proof (delete_client_missing u env (set_user req u) w Hex) as Hd.
  subst req.
  exact (serve_operation (ClientDelete id) env header b u w _ _ Hok Hd).
Qed.

(** X11. Deleting the same client a second time is answered 404 and changes
    nothing: the first deletion left no client with that id. *)
Theorem X11_client_delete_twice env header b id u w c :
  let req := request_of (ClientDelete id) header b in
  fst (authenticateToken env req w) = Next (set_user req u) ->
  In c (load CLIENTS_FILE (disk w)) ->
  parseInt id = Some (c_id c) ->
  c_userId c = cl_id u ->
  let w1 := snd (serve env req w) in
  fst (serve env req w) = mkResponse 200 J_success /\
  fst (serve env req w1) = mkResponse 404 (J_error "Client not found") /\
  disk (snd (serve env req w1)) = disk w1.
Proof.
  intros req Hok Hin Hid Hown w1. subst req.
  set (req := request_of (ClientDelete id) header b) in *.
  pose proof (some_owned_client u (parseInt id) _ c Hin Hid Hown) as Hex.
  pose proof (delete_client_found u env (set_user req u) w Hex) as Hd.
  assert (H1 : serve env req w = _)
    by exact (serve_operation (ClientDelete id) env header b u w _ _ Hok Hd).
  assert (Hok1 : fst (authenticateToken env req w1) = Next (set_user req u))
    by (now rewrite authenticateToken_any_world with (w := w)).
  assert (Hnone : forall c', In c' (load CLIENTS_FILE (disk w1)) ->
            parseInt id = Some (c_id c') -> c_userId c' <> cl_id u).
  { intros c' Hc' Hid'. exfalso. unfold w1 in Hc'. rewrite H1 in Hc'.
    cbn [snd disk] in Hc'.
    change (load CLIENTS_FILE (save CLIENTS_FILE ?l ?s))
      with (map stringify_client l) in Hc'.
    now apply id_gone_after_filter in Hc'. }
  pose proof (no_owned_client u (parseInt id) _ Hnone) as Hex1.
  pose proof (delete_client_missing u env (set_user req u) w1 Hex1) as Hd1.
  assert (H2 : serve env req w1 = _)
    by exact (serve_operation (ClientDelete id) env header b u w1 _ _ Hok1 Hd1).
  rewrite H2, H1. repeat split.
Qed.

(** ** Creating a client *)

Lemma post_api_clients_run u env req w :
  post_api_clients u env req w =
    (Done (mkResponse 201
             (J_client (new_client env u (body req) (load CLIENTS_FILE (disk w))))),
     mkWorld (save CLIENTS_FILE
                ((load CLIENTS_FILE (disk w) : list Client) ++
                 [new_client env u (body req) (load CLIENTS_FILE (disk w))])%list
                (disk w))
             (trace w ++ [Read CLIENTS_FILE; Write CLIENTS_FILE])).
Proof.
  unfold post_api_clients, new_client. run_io. now rewrite <- app_assoc.
Qed.

Lemma filter_owned_stringify u l :
  filter (owned_client u) (map stringify_client l) =
    map stringify_client (filter (owned_client u) l).
Proof.
  induction l as [|c l IH]; simpl; [reflexivity|].
  change (owned_client u (stringify_client c)) with (owned_client u c).
  destruct (owned_client u c); simpl; now rewrite IH.
Qed.

Lemma summary_stringify l :
  map summary (map stringify_client l) = map summary l.
Proof.
  rewrite map_map. apply map_ext. intros c. unfold summary. simpl.
  now rewrite !or0_stringify.
Qed.

(** X12. A client created by a caller whose token passes shows on that caller's
    dashboard at once: one more client, and one more line at the end of
    [clientSummary] with the sanitised name and email and both statistics at
    0; the lines and the invoice figures that were there are unchanged. *)
Theorem X12_created_client_shows_on_dashboard env env' header header' b b' u w :
  let create := request_of ClientCreate header b in
  let board := request_of Dashboard header' b' in
  fst (authenticateToken env create w) = Next (set_user create u) ->
  fst (authenticateToken env' board w) = Next (set_user board u) ->
  validateClient_errors b = [] ->
  let w1 := snd (serve env create w) in
  exists before after,
    fst (serve env' board w) = mkResponse 200 (J_stats before) /\
    fst (serve env' board w1) = mkResponse 200 (J_stats after) /\
    status (fst (serve env create w)) = 201 /\
    totalClients after = S (totalClients before) /\
    clientSummary after =
      (clientSummary before ++
       [mkClientSummary (escape (trim (b_name b)))
                        (normalizeEmail (b_email b)) 0 0])%list /\
    totalInvoices after = totalInvoices before /\
    totalTax after = totalTax before /\
    totalRevenue after = totalRevenue before.
Proof.
  intros create board Hc Hb V w1. subst create board.
  set (create := request_of ClientCreate header b) in *.
  set (board := request_of Dashboard header' b') in *.
  set (req' := set_validated (set_user create u) (validateClient_body b) []).
  pose proof (chain_validated validateClient_errors validateClient_body
                (as_user "Failed to create client" post_api_clients)
                env (set_user create u) w _ _ eq_refl V
                (post_api_clients_run u env req' w)) as Hh.
  assert (H1 : serve env create w = _)
    by exact (serve_operation ClientCreate env header b u w _ _ Hc Hh).
  assert (Hb1 : fst (authenticateToken env' board w1) = Next (set_user board u))
    by (now rewrite authenticateToken_any_world with (w := w)).
  assert (Hd0 : serve env' board w = _)
    by exact (serve_operation Dashboard env' header' b' u w _ _ Hb
                (get_api_dashboard_run u env' _ w)).
  assert (Hd1 : serve env' board w1 = _)
    by exact (serve_operation Dashboard env' header' b' u w1 _ _ Hb1
                (get_api_dashboard_run u env' _ w1)).
  eexists _, _. rewrite Hd0, Hd1, H1. split; [reflexivity|].
  split; [reflexivity|]. split; [reflexivity|].
  unfold w1. rewrite H1. cbn [snd disk fst status].
  change (load CLIENTS_FILE (save CLIENTS_FILE ?l ?s)) with (map stringify_client l).
  change (load INVOICES_FILE (save CLIENTS_FILE ?l ?s)) with (load INVOICES_FILE s).
  rewrite filter_owned_stringify, filter_app.
  assert (Hown : filter (owned_client u)
                   [new_client env u (body req') (load CLIENTS_FILE (disk w))] =
                 [new_client env u (body req') (load CLIENTS_FILE (disk w))]).
  { simpl. unfold owned_client. simpl.
    now rewrite (proj2 (optZ_eqb_eq (cl_id u) (cl_id u)) eq_refl). }
  rewrite Hown. unfold dashboard_stats.
  cbn [totalClients clientSummary totalInvoices totalTax totalRevenue].
  rewrite length_map, length_app, summary_stringify, map_app.
  repeat split. simpl. lia.
Qed.

(** ** Creating an invoice, then deleting it *)

Lemma invoices_after_create env u b s :
  load INVOICES_FILE (after_create env u b s) =
    map stringify_invoice
        (load INVOICES_FILE s ++ [new_invoice env u b (load INVOICES_FILE s)]).
Proof. unfold after_create. case_find; reflexivity. Qed.

Lemma clients_after_create env u b s z :
  NoDup (map c_id (load CLIENTS_FILE s)) ->
  (forall c, In c (load CLIENTS_FILE s) -> numeric c) ->
  (forall c, In c (load CLIENTS_FILE s) -> c_id c = b_clientId b ->
             numeric (invoice_created (Num z) c)) ->
  (forall c, In c (load CLIENTS_FILE s) -> c_id c = b_clientId b ->
             c_userId c = cl_id u) ->
  b_total b = Num z ->
  load CLIENTS_FILE (after_create env u b s) =
    map (fun c => if c_id c =? b_clientId b
                  then invoice_created (Num z) c else c)
        (load CLIENTS_FILE s).
Proof.
  intros Hnd Hnum Hnew Hown Hz. unfold after_create.
  cbn [new_invoice i_clientId i_total]. rewrite Hz.
  apply clients_updated; [reflexivity | exact Hnd | |].
  - intros c Hin. unfold billed, owned_client.
    destruct (Z.eqb_spec (c_id c) (b_clientId b)) as [E|E]; [|reflexivity].
    simpl. apply optZ_eqb_eq. now apply Hown.
  - intros c Hin. split; [now apply Hnum | now apply Hnew].
Qed.

Lemma same_key_same_element {A} (key : A -> Z) (l : list A) x y :
  NoDup (map key l) -> In x l -> In y l -> key x = key y -> x = y.
Proof.
  induction l as [|a l IH]; intros Hnd Hx Hy E; [contradiction|].
  simpl in Hnd. inversion Hnd as [|k ks Hnotin Hnd' Heq]; subst k ks.
  destruct Hx as [<-|Hx], Hy as [<-|Hy].
  - reflexivity.
  - exfalso. apply Hnotin. rewrite E. now apply in_map.
  - exfalso. apply Hnotin. rewrite <- E. now apply in_map.
  - now apply IH.
Qed.

(** The two files after deleting the invoice [inv] of the caller, when
    invoice ids and client ids are distinct and the statistics are numbers,
    before the deletion and after it. *)
Lemma files_after_delete u n s inv z :
  NoDup (map i_id (load INVOICES_FILE s)) ->
  In inv (load INVOICES_FILE s) ->
  id_is n (i_id inv) = true ->
  i_userId inv = cl_id u ->
  i_total inv = Num z ->
  NoDup (map c_id (load CLIENTS_FILE s)) ->
  (forall c, In c (load CLIENTS_FILE s) -> numeric c) ->
  (forall c, In c (load CLIENTS_FILE s) -> c_id c = i_clientId inv ->
             numeric (invoice_deleted (Num z) c)) ->
  load INVOICES_FILE (after_delete u n s) =
    map stringify_invoice (filter (keeps n) (load INVOICES_FILE s)) /\
  load CLIENTS_FILE (after_delete u n s) =
    map (fun c => if c_id c =? i_clientId inv
                  then invoice_deleted (Num z) c else c)
        (load CLIENTS_FILE s).
Proof.
  intros Hnd Hin Hid Hu Hz Hcnd Hnum Hnew. unfold after_delete.
  destruct (find (targets u n) (load INVOICES_FILE s)) as [found|] eqn:E.
  - apply find_some in E as [Hfin Ht]. unfold targets in Ht.
    apply andb_prop in Ht as [Hfid _].
    assert (found = inv) as ->.
    { apply (same_key_same_element i_id _ _ _ Hnd Hfin Hin).
      destruct n as [k|]; [|discriminate]. simpl in Hfid, Hid.
      apply Z.eqb_eq in Hfid, Hid. congruence. }
    split.
    + case_find; reflexivity.
    + change (load CLIENTS_FILE (save INVOICES_FILE ?l ?d)) with (load CLIENTS_FILE d).
      rewrite Hz.
      apply clients_updated; [reflexivity | exact Hcnd | reflexivity |].
      intros c Hc. split; [now apply Hnum | now apply Hnew].
  - exfalso. pose proof (find_none _ _ E inv Hin) as Hf.
    unfold targets, owned_invoice in Hf. rewrite Hid in Hf. simpl in Hf.
    rewrite (proj2 (optZ_eqb_eq _ _) Hu) in Hf. discriminate.
Qed.

Lemma stringify_invoice_twice l :
  map stringify_invoice (map stringify_invoice l) = map stringify_invoice l.
Proof.
  rewrite map_map. apply map_ext. intros i. unfold stringify_invoice. simpl.
  destruct (i_taxAmount i), (i_total i); reflexivity.
Qed.

Lemma filter_keeps_stringify n l :
  filter (keeps n) (map stringify_invoice l) =
    map stringify_invoice (filter (keeps n) l).
Proof.
  induction l as [|i l IH]; simpl; [reflexivity|].
  change (keeps n (stringify_invoice i)) with (keeps n i).
  destruct (keeps n i); simpl; now rewrite IH.
Qed.

(** The invoices file after creating an invoice with a fresh id and
    deleting that id: the invoices that were there, as serialised. *)
Lemma invoices_after_create_delete n inv (l : list Invoice) :
  ~ In (i_id inv) (map i_id l) ->
  n = Some (i_id inv) ->
  map stringify_invoice
      (filter (keeps n) (map stringify_invoice (l ++ [inv]))) =
    map stringify_invoice l.
Proof.
  intros Hfresh ->. rewrite filter_keeps_stringify, stringify_invoice_twice.
  rewrite filter_app, filter_keeps_all.
  - simpl. unfold keeps. simpl. rewrite Z.eqb_refl. simpl. now rewrite app_nil_r.
  - intros i Hi. simpl. apply Z.eqb_neq. intros E. apply Hfresh.
    rewrite <- E. now apply in_map.
Qed.

Lemma new_invoice_is_last env u b (l : list Invoice) :
  In (stringify_invoice (new_invoice env u b l))
     (map stringify_invoice (l ++ [new_invoice env u b l])).
Proof. apply in_map, in_or_app. right. now left. Qed.

Lemma NoDup_ids_after_create env u b (l : list Invoice) :
  NoDup (map i_id l) ->
  ~ In (i_id (new_invoice env u b l)) (map i_id l) ->
  NoDup (map i_id (map stringify_invoice (l ++ [new_invoice env u b l]))).
Proof.
  intros Hnd Hfresh. rewrite map_id_stringify_invoice, map_app.
  now apply NoDup_snoc.
Qed.

(** X13. On a well formed state, an admissible creation followed by the deletion
    of the invoice just created (by the same caller) puts both files back:
    the clients file is exactly as before, statistics included, and the
    invoices file holds the invoices it held.  Well formed and admissible
    include that the totals are integers and that the invoices, the new one
    among them, are in the range where doubles are exact ([exact_range]):
    adding the total and subtracting it again is then not rounded. *)
Theorem X13_create_then_delete_restores env env' u req req' w :
  well_formed (disk w) ->
  admissible (disk w) (Create env u req) ->
  parseInt (param_id req') =
    Some (i_id (new_invoice env u (body req) (load INVOICES_FILE (disk w)))) ->
  let w2 := step (step w (Create env u req)) (Delete env' u req') in
  load CLIENTS_FILE (disk w2) = load CLIENTS_FILE (disk w) /\
  load INVOICES_FILE (disk w2) =
    map stringify_invoice (load INVOICES_FILE (disk w)) /\
  users_file (disk w2) = users_file (disk w).
Proof.
  intros Hwf Hadm Hid w2. pose proof Hwf as [Hi Hc Ho Ht He Ha].
  pose proof Hadm as (Hfresh & [z Hz] & Hrange & Hown).
  pose proof (create_preserves env u req (disk w) Hwf Hadm) as Hwf1.
  subst w2. rewrite step_delete, step_create, Hid.
  set (b := body req) in *.
  set (inv := new_invoice env u b (load INVOICES_FILE (disk w))) in *.
  set (s1 := after_create env u b (disk w)) in *.
  assert (Htot : i_total inv = Num z) by exact Hz.
  assert (Hnum : forall c, In c (load CLIENTS_FILE (disk w)) -> numeric c)
    by (intros c Hin; now apply (aggregates_numeric (disk w))).
  pose proof (fun c Hin => created_in_range (disk w) c inv z Ha Hin Htot Hrange)
    as Hcreated.
  pose proof (invoices_after_create env u b (disk w)) as Hinv1. fold inv s1 in Hinv1.
  assert (Hcl1 : load CLIENTS_FILE s1 =
                 map (fun c => if c_id c =? b_clientId b
                               then invoice_created (Num z) c else c)
                     (load CLIENTS_FILE (disk w))).
  { apply (clients_after_create env u b (disk w) z Hc Hnum); [|exact Hown|exact Hz].
    intros c Hin _. rewrite (Hcreated c Hin). unfold numeric. simpl. eauto. }
  assert (Hlast : In (stringify_invoice inv) (load INVOICES_FILE s1))
    by (rewrite Hinv1; apply new_invoice_is_last).
  assert (Hdeleted : forall c1, In c1 (load CLIENTS_FILE s1) ->
            c_id c1 = b_clientId b ->
            invoice_deleted (Num z) c1 =
              mkClient (c_id c1) (c_userId c1) (c_name c1) (c_email c1)
                       (c_address c1)
                       (Num (count_of (c_id c1) (load INVOICES_FILE s1) - 1))
                       (Num (paid_of (c_id c1) (load INVOICES_FILE s1) - z))
                       (c_createdAt c1)).
  { intros c1 Hin1 Hid1.
    apply (deleted_in_range s1 c1 (stringify_invoice inv) z);
      [apply wf_aggregates, Hwf1 | exact Hin1 | apply wf_exact, Hwf1
       | exact Hlast | now rewrite Hid1 |].
    cbn [stringify_invoice i_total]. now rewrite Htot. }
  destruct (files_after_delete u (Some (i_id inv)) s1 (stringify_invoice inv) z)
    as [Hinv2 Hcl2].
  - apply wf_invoice_ids, Hwf1.
  - exact Hlast.
  - simpl. apply Z.eqb_refl.
  - reflexivity.
  - cbn [stringify_invoice i_total]. now rewrite Htot.
  - apply wf_client_ids, Hwf1.
  - intros c Hin. apply (aggregates_numeric s1); [|exact Hin].
    apply wf_aggregates, Hwf1.
  - intros c1 Hin1 Hid1. rewrite (Hdeleted c1 Hin1 Hid1).
    unfold numeric. simpl. eauto.
  - split; [|split].
    + rewrite Hcl2, Hcl1, map_map.
      rewrite <- (map_id (load CLIENTS_FILE (disk w))) at 2.
      apply map_ext_in. intros c Hin.
      change (i_clientId (stringify_invoice inv)) with (b_clientId b).
      destruct (Z.eqb_spec (c_id c) (b_clientId b)) as [E|E].
      * change (c_id (invoice_created (Num z) c)) with (c_id c).
        pose proof E as Eb. apply Z.eqb_eq in Eb. rewrite Eb.
        assert (Hin1 : In (invoice_created (Num z) c) (load CLIENTS_FILE s1)).
        { rewrite Hcl1. apply in_map_iff. exists c. now rewrite Eb. }
        rewrite (Hdeleted _ Hin1 E).
        change (c_id (invoice_created (Num z) c)) with (c_id c).
        rewrite Hinv1, count_of_stringify, paid_of_stringify,
          count_of_app, paid_of_app.
        destruct (count_of_same (c_id c) inv) as [-> ->];
          [now rewrite E|].
        rewrite Htot. cbn [or0].
        destruct (Ha c Hin) as [Hcount Hpaid].
        destruct c as [i o nm e a cnt paid t]. simpl in *. subst cnt paid.
        f_equal; f_equal; lia.
      * apply Z.eqb_neq in E. now rewrite E.
    + rewrite Hinv2, Hinv1.
      now apply invoices_after_create_delete.
    + unfold s1. now rewrite users_file_after_delete, users_file_after_create.
Qed.

Lemma find_billed_none u cid clients c :
  NoDup (map c_id clients) ->
  In c clients -> c_id c = cid -> c_userId c <> cl_id u ->
  find (billed u cid) clients = None.
Proof.
  intros Hnd Hin Hid Hown.
  destruct (find (billed u cid) clients) as [c'|] eqn:E; [|reflexivity].
  apply find_some in E as [Hin' Hb]. unfold billed in Hb.
  apply andb_prop in Hb as [Hid' Hown']. apply Z.eqb_eq in Hid'.
  assert (c' = c) as ->
    by (apply (same_key_same_element c_id clients); congruence).
  unfold owned_client in Hown'. apply optZ_eqb_eq in Hown'. contradiction.
Qed.

(** X14. A caller who is not the owner of a client can still name it in an
    invoice.  Creating that invoice leaves the client's statistics alone
    (the client is looked up by id and owner), but deleting it lowers them
    (the client is looked up by id only): after the two operations the
    invoices are those of before, while the client's [invoiceCount] is one
    less and its [totalPaid] lower by the invoice's total than the invoices
    in the file warrant.  The totals are integers, and the invoices with
    the new one among them are in the range where doubles are exact
    ([exact_range]), so that the subtraction is not rounded. *)
Theorem X14_stranger_create_then_delete_lowers_statistics
    env env' u req req' w c z :
  well_formed (disk w) ->
  In c (load CLIENTS_FILE (disk w)) ->
  c_id c = b_clientId (body req) ->
  c_userId c <> cl_id u ->
  ~ In (i_id (new_invoice env u (body req) (load INVOICES_FILE (disk w))))
       (map i_id (load INVOICES_FILE (disk w))) ->
  b_total (body req) = Num z ->
  exact_range
    (load INVOICES_FILE (disk w) ++
     [new_invoice env u (body req) (load INVOICES_FILE (disk w))]) ->
  parseInt (param_id req') =
    Some (i_id (new_invoice env u (body req) (load INVOICES_FILE (disk w)))) ->
  let w1 := step w (Create env u req) in
  let w2 := step w1 (Delete env' u req') in
  let c' := invoice_deleted (Num z) c in
  load CLIENTS_FILE (disk w1) = load CLIENTS_FILE (disk w) /\
  load INVOICES_FILE (disk w2) =
    map stringify_invoice (load INVOICES_FILE (disk w)) /\
  In c' (load CLIENTS_FILE (disk w2)) /\
  c_invoiceCount c' =
    Num (count_of (c_id c) (load INVOICES_FILE (disk w2)) - 1) /\
  c_totalPaid c' =
    Num (paid_of (c_id c) (load INVOICES_FILE (disk w2)) - z).
Proof.
  intros Hwf Hin Hcid Hnot Hfresh Hz Hrange Hid w1 w2 c'.
  pose proof Hwf as [Hi Hc Ho Ht He Ha].
  subst w2 w1. rewrite step_delete, !step_create, Hid.
  set (b := body req) in *.
  set (inv := new_invoice env u b (load INVOICES_FILE (disk w))) in *.
  set (s1 := after_create env u b (disk w)) in *.
  assert (Hnum : forall c, In c (load CLIENTS_FILE (disk w)) -> numeric c)
    by (intros c0 Hin0; now apply (aggregates_numeric (disk w))).
  assert (Hc' : c' =
            mkClient (c_id c) (c_userId c) (c_name c) (c_email c) (c_address c)
                     (Num (count_of (c_id c) (load INVOICES_FILE (disk w)) - 1))
                     (Num (paid_of (c_id c) (load INVOICES_FILE (disk w)) - z))
                     (c_createdAt c)).
  { destruct (Ha c Hin) as [Hcount Hpaid]. destruct Hrange as [Hw Hl].
    rewrite weight_app in Hw. rewrite length_app, Nat2Z.inj_add in Hl.
    assert (Hwi : weight [inv] = Z.abs z).
    { unfold weight. cbn [fold_right]. unfold inv. cbn [new_invoice i_total].
      rewrite Hz. cbn [or0]. lia. }
    rewrite Hwi in Hw. change (Z.of_nat (List.length [inv])) with 1 in Hl.
    pose proof (count_of_range (c_id c) (load INVOICES_FILE (disk w))).
    pose proof (paid_le_weight (c_id c) (load INVOICES_FILE (disk w))).
    apply (invoice_deleted_exact c _ _ z Hcount Hpaid);
      unfold two53 in *; lia. }
  pose proof (invoices_after_create env u b (disk w)) as Hinv1. fold inv s1 in Hinv1.
  assert (Hcl1 : load CLIENTS_FILE s1 = load CLIENTS_FILE (disk w)).
  { unfold s1, after_create. cbn [new_invoice i_clientId].
    now rewrite (find_billed_none u (b_clientId b) _ c Hc Hin Hcid Hnot). }
  destruct (files_after_delete u (Some (i_id inv)) s1 (stringify_invoice inv) z)
    as [Hinv2 Hcl2].
  - rewrite Hinv1. now apply NoDup_ids_after_create.
  - rewrite Hinv1. apply new_invoice_is_last.
  - simpl. apply Z.eqb_refl.
  - reflexivity.
  - simpl. unfold inv. simpl. now rewrite Hz.
  - now rewrite Hcl1.
  - rewrite Hcl1. exact Hnum.
  - rewrite Hcl1. intros c0 Hin0 Hid0.
    assert (c0 = c) as ->.
    { apply (same_key_same_element c_id _ _ _ Hc Hin0 Hin).
      rewrite Hid0, Hcid. reflexivity. }
    fold c'. rewrite Hc'. unfold numeric. simpl. eauto.
  - assert (Hinv : load INVOICES_FILE (after_delete u (Some (i_id inv)) s1) =
                   map stringify_invoice (load INVOICES_FILE (disk w))).
    { rewrite Hinv2, Hinv1. now apply invoices_after_create_delete. }
    split; [exact Hcl1|]. split; [exact Hinv|]. split; [|split].
    + rewrite Hcl2, Hcl1. apply in_map_iff. exists c. split; [|exact Hin].
      change (i_clientId (stringify_invoice inv)) with (b_clientId b).
      now rewrite Hcid, Z.eqb_refl.
    + rewrite Hinv, count_of_stringify, Hc'. reflexivity.
    + rewrite Hinv, paid_of_stringify, Hc'. reflexivity.
Qed.

(** ** Reading the Authorization header *)

Lemma split_on_spaceless s :
  spaceless s = true -> split_on " "%char s = [s].
Proof.
  induction s as [|a r IH]; simpl; [reflexivity|].
  intros H. apply andb_prop in H as [Ha Hr].
  destruct (Ascii.eqb a " "); [discriminate|]. now rewrite (IH Hr).
Qed.

Lemma split_on_word s r :
  spaceless s = true ->
  split_on " "%char (s ++ String " "%char r) = s :: split_on " "%char r.
Proof.
  induction s as [|a s IH]; simpl; [reflexivity|].
  intros H. apply andb_prop in H as [Ha Hr].
  destruct (Ascii.eqb a " "); [discriminate|]. now rewrite (IH Hr).
Qed.

Lemma append_empty s : (s ++ "")%string = s.
Proof. induction s as [|a s IH]; simpl; [reflexivity | now rewrite IH]. Qed.

Lemma bearer_second_word scheme token extra :
  spaceless scheme = true ->
  spaceless token = true ->
  extra = "" \/ (exists e, extra = String " "%char e) ->
  bearer (Some (scheme ++ " " ++ token ++ extra)) = Some token.
Proof.
  intros Hs Ht Hex. unfold bearer.
  change (scheme ++ " " ++ token ++ extra)%string
    with (scheme ++ String " "%char (token ++ extra))%string.
  rewrite (split_on_word scheme _ Hs). simpl.
  destruct Hex as [->|[e ->]].
  - rewrite append_empty.
    now rewrite (split_on_spaceless token Ht).
  - now rewrite (split_on_word token e Ht).
Qed.

(** X15. [authenticateToken] takes the second space-separated word of the
    [Authorization] header as the token and looks at nothing else: with a
    non-empty token in that place the outcome is the one [jwt.verify] gives
    for that token, whatever the first word is ("Bearer" is not required) and
    whatever follows a further space; a header of one word only is answered
    401 "Access token required". *)
Theorem X15_token_is_the_second_word env req w :
  (forall scheme token extra,
     authorization req = Some (scheme ++ " " ++ token ++ extra) ->
     spaceless scheme = true ->
     spaceless token = true ->
     token <> "" ->
     extra = "" \/ (exists e, extra = String " "%char e) ->
     authenticateToken env req w =
       match jwt_verify token JWT_SECRET (now env) with
       | inl _ => (Done (mkResponse 403 (J_error "Invalid or expired token")), w)
       | inr u => (Next (set_user req u), w)
       end) /\
  (forall word,
     authorization req = Some word ->
     spaceless word = true ->
     authenticateToken env req w =
       (Done (mkResponse 401 (J_error "Access token required")), w)).
Proof.
  split.
  - intros scheme token extra Hh Hs Ht Hne Hex.
    apply authenticateToken_verify; [|exact Hne].
    rewrite Hh. now apply bearer_second_word.
  - intros word Hh Hs. unfold authenticateToken, bearer.
    rewrite Hh, (split_on_spaceless word Hs). reflexivity.
Qed.

(** ** The dashboard on a well formed state *)

(** Adding up the totals as the dashboard does, one rounded addition after
    the other, gives their sum when no partial sum can leave the range
    where doubles are exact. *)
Lemma revenue_in_range (l : list Invoice) (acc : Z) :
  Z.abs acc + weight l <= two53 ->
  fold_left (fun sum inv => js_add sum (Num (or0 (i_total inv)))) l (Num acc) =
    Num (acc + sum_totals l).
Proof.
  revert acc. induction l as [|i l IH]; intros acc H.
  - cbn [fold_left]. unfold sum_totals. simpl. now rewrite Z.add_0_r.
  - change (weight (i :: l)) with (Z.abs (or0 (i_total i)) + weight l) in H.
    pose proof (weight_nonneg l).
    cbn [fold_left]. rewrite js_add_exact by lia.
    rewrite IH by lia.
    change (sum_totals (i :: l)) with (or0 (i_total i) + sum_totals l).
    f_equal. lia.
Qed.

Lemma sum_map_add {A} (f g : A -> Z) (l : list A) :
  fold_right Z.add 0 (map (fun k => f k + g k) l) =
    fold_right Z.add 0 (map f l) + fold_right Z.add 0 (map g l).
Proof. induction l as [|x l IH]; simpl; [reflexivity | rewrite IH; lia]. Qed.

Lemma sum_indicator_absent (x v : Z) (ids : list Z) :
  ~ In x ids ->
  fold_right Z.add 0 (map (fun k => if x =? k then v else 0) ids) = 0.
Proof.
  induction ids as [|k ids IH]; simpl; intros H; [reflexivity|].
  destruct (Z.eqb_spec x k) as [E|E]; [exfalso; apply H; now left|].
  rewrite IH; [reflexivity|]. intros Hin. apply H. now right.
Qed.

Lemma sum_indicator (x v : Z) (ids : list Z) :
  NoDup ids -> In x ids ->
  fold_right Z.add 0 (map (fun k => if x =? k then v else 0) ids) = v.
Proof.
  induction ids as [|k ids IH]; intros Hnd Hin; [contradiction|].
  inversion Hnd as [|y ys Hk Hnd' Heq]; subst y ys. simpl.
  destruct (Z.eqb_spec x k) as [E|E].
  - subst k. rewrite sum_indicator_absent; [lia | exact Hk].
  - destruct Hin as [Hin|Hin]; [congruence|]. rewrite IH; [lia | exact Hnd' | exact Hin].
Qed.

(** Counting the invoices client by client counts each invoice once, when
    every invoice names one of the (distinct) ids. *)
Lemma sums_by_client (ids : list Z) (l : list Invoice) :
  NoDup ids ->
  (forall i, In i l -> In (i_clientId i) ids) ->
  fold_right Z.add 0 (map (fun k => paid_of k l) ids) = sum_totals l /\
  fold_right Z.add 0 (map (fun k => count_of k l) ids) = Z.of_nat (List.length l).
Proof.
  intros Hnd. induction l as [|i l IH]; intros Hall.
  - split.
    + induction ids as [|k ids IHk]; simpl; [reflexivity|].
      inversion Hnd; subst. now rewrite IHk.
    + induction ids as [|k ids IHk]; simpl; [reflexivity|].
      inversion Hnd; subst. now rewrite IHk.
  - destruct IH as [IHp IHc]; [intros j Hj; apply Hall; now right|].
    assert (Hi : In (i_clientId i) ids) by (apply Hall; now left).
    split.
    + rewrite (map_ext _ _ (fun k => paid_of_cons k i l)), sum_map_add, IHp.
      rewrite (sum_indicator _ _ _ Hnd Hi). reflexivity.
    + rewrite (map_ext _ _ (fun k => count_of_cons k i l)), sum_map_add, IHc.
      rewrite (sum_indicator _ _ _ Hnd Hi). simpl List.length. lia.
Qed.

Lemma invoices_of_owned u cid (l : list Invoice) :
  (forall i, In i l -> i_clientId i = cid -> i_userId i = cl_id u) ->
  invoices_of cid (filter (owned_invoice u) l) = invoices_of cid l.
Proof.
  intros H. unfold invoices_of. induction l as [|i l IH]; simpl; [reflexivity|].
  assert (IH' : filter (fun i => i_clientId i =? cid) (filter (owned_invoice u) l) =
                filter (fun i => i_clientId i =? cid) l)
    by (apply IH; intros j Hj; apply H; now right).
  destruct (owned_invoice u i) eqn:Eo; simpl.
  - now rewrite IH'.
  - destruct (Z.eqb_spec (i_clientId i) cid) as [E|E]; [|exact IH'].
    exfalso. unfold owned_invoice in Eo.
    rewrite (proj2 (optZ_eqb_eq _ _) (H i (or_introl eq_refl) E)) in Eo.
    discriminate.
Qed.

(** X16. On a well formed state in which every invoice of the caller names one
    of the caller's clients, the figures of the dashboard agree with each
    other: the revenue is the sum of the [totalPaid] column of
    [clientSummary], and the number of invoices is the sum of its
    [invoiceCount] column.  A well formed state holds integer totals in the
    range where doubles are exact ([exact_range]): no addition of the
    dashboard is rounded. *)
Theorem X16_dashboard_figures_agree env header b u w :
  let req := request_of Dashboard header b in
  fst (authenticateToken env req w) = Next (set_user req u) ->
  well_formed (disk w) ->
  (forall inv, In inv (load INVOICES_FILE (disk w)) -> i_userId inv = cl_id u ->
     exists c, In c (load CLIENTS_FILE (disk w)) /\
               c_id c = i_clientId inv /\ c_userId c = cl_id u) ->
  exists st,
    fst (serve env req w) = mkResponse 200 (J_stats st) /\
    totalRevenue st =
      Num (fold_right Z.add 0 (map cs_totalPaid (clientSummary st))) /\
    Z.of_nat (totalInvoices st) =
      fold_right Z.add 0 (map cs_invoiceCount (clientSummary st)).
Proof.
  intros req Hok [Hi Hc Ho Ht He Ha] Hnamed. subst req.
  eexists. split.
  - rewrite (serve_operation Dashboard env header b u w _ _ Hok
               (get_api_dashboard_run u env _ w)). reflexivity.
  - set (mine := filter (owned_client u) (load CLIENTS_FILE (disk w))).
    set (theirs := filter (owned_invoice u) (load INVOICES_FILE (disk w))).
    cbn [dashboard_stats totalRevenue totalInvoices clientSummary].
    assert (Hids : NoDup (map c_id mine)) by now apply NoDup_map_filter.
    assert (Hall : forall i, In i theirs -> In (i_clientId i) (map c_id mine)).
    { intros i Hin. apply filter_In in Hin as [Hin Hown].
      unfold owned_invoice in Hown. apply optZ_eqb_eq in Hown.
      destruct (Hnamed i Hin Hown) as (c & Hcin & Hcid & Hcu).
      rewrite <- Hcid. apply in_map, filter_In. split; [exact Hcin|].
      unfold owned_client. now apply optZ_eqb_eq. }
    destruct (sums_by_client (map c_id mine) theirs Hids Hall) as [Hp Hn].
    assert (Hline : forall c, In c mine ->
              cs_totalPaid (summary c) = paid_of (c_id c) theirs /\
              cs_invoiceCount (summary c) = count_of (c_id c) theirs).
    { intros c Hin. apply filter_In in Hin as [Hin Hown].
      unfold owned_client in Hown. apply optZ_eqb_eq in Hown.
      destruct (Ha c Hin) as [Hcount Hpaid]. unfold summary. simpl.
      rewrite Hcount, Hpaid. simpl. unfold paid_of, count_of, theirs.
      rewrite invoices_of_owned; [split; reflexivity|].
      intros i Hiin Hicid. rewrite <- Hown. now apply Ho. }
    assert (Hw : Z.abs 0 + weight theirs <= two53).
    { pose proof (weight_filter (owned_invoice u) (load INVOICES_FILE (disk w))).
      destruct He as [He _]. fold theirs in H. simpl. lia. }
    rewrite (revenue_in_range theirs 0 Hw). rewrite !map_map.
    rewrite map_map in Hp, Hn. split.
    + rewrite (map_ext_in _ (fun c => paid_of (c_id c) theirs));
        [|intros c Hin; now apply Hline].
      rewrite Hp. reflexivity.
    + rewrite (map_ext_in _ (fun c => count_of (c_id c) theirs));
        [|intros c Hin; now apply Hline].
      now rewrite Hn.
Qed.

(** ** Requests no route serves *)

Lemma dispatch_skips stack rest env req w :
  Forall (fun l => applies l req = false) stack ->
  dispatch (stack ++ rest) env req w = dispatch rest env req w.
Proof.
  induction 1 as [|l stack Hl _ IH]; [reflexivity|].
  cbn [List.app]. rewrite dispatch_cons, Hl. exact IH.
Qed.

Lemma routes_skip_put req :
  method req = PUT ->
  Forall (fun l => applies l req = false)
         (firstn 2 app) /\
  Forall (fun l => applies l req = false)
         (firstn 9 (skipn 5 app)).
Proof.
  intros Hm. cbn [app firstn skipn].
  split;
    repeat (apply Forall_cons;
            [cbn [applies route route_id]; rewrite Hm; reflexivity|]);
    apply Forall_nil.
Qed.

Lemma dispatch_not_found env req w :
  dispatch (skipn 14 app) env req w =
    (mkResponse 404 (J_error "Route not found"), w).
Proof.
  cbn [app skipn]. rewrite dispatch_cons.
  cbn [applies use prefix_of run]. reflexivity.
Qed.

(** X17. No route is registered for PUT: such a request, whatever its url and
    body, changes nothing and reads nothing.  Outside the protected prefixes
    it is answered 404 "Route not found"; under them the token is still
    checked first, and a caller whose token passes gets the same 404.  So no
    request edits a stored client or invoice in place through PUT. *)
Theorem X17_put_requests_find_no_route env req w :
  method req = PUT ->
  snd (serve env req w) = w /\
  (protected req = false ->
   fst (serve env req w) = mkResponse 404 (J_error "Route not found")) /\
  (forall u, protected req = true ->
   fst (authenticateToken env req w) = Next (set_user req u) ->
   fst (serve env req w) = mkResponse 404 (J_error "Route not found")).
Proof.
  intros Hm.
  assert (Hopen : protected req = false ->
            serve env req w = (mkResponse 404 (J_error "Route not found"), w)).
  { intros Hp. destruct (routes_skip_put req Hm) as [H2 H9].
    unfold serve.
    change app with (firstn 2 app ++ firstn 3 (skipn 2 app) ++
                     firstn 9 (skipn 5 app) ++ skipn 14 app)%list.
    rewrite (dispatch_skips _ _ env req w H2).
    rewrite dispatch_skips.
    - rewrite (dispatch_skips _ _ env req w H9). apply dispatch_not_found.
    - cbn [app skipn firstn].
      repeat (apply Forall_cons;
              [apply guard_needs_protected; [simpl; auto | exact Hp]|]);
      apply Forall_nil. }
  assert (Hpass : forall u, protected req = true ->
            fst (authenticateToken env req w) = Next (set_user req u) ->
            serve env req w = (mkResponse 404 (J_error "Route not found"), w)).
  { intros u Hp Hok. rewrite (serve_after_token env req w u Hp Hok).
    destruct (routes_skip_put (set_user req u) Hm) as [_ H9].
    change (skipn 5 app) with (firstn 9 (skipn 5 app) ++ skipn 14 app)%list.
    rewrite (dispatch_skips _ _ env _ w H9). apply dispatch_not_found. }
  assert (Hcase : (exists u, fst (authenticateToken env req w) =
                             Next (set_user req u)) \/
                  (exists res, fst (authenticateToken env req w) = Done res)).
  { destruct (fst (authenticateToken env req w)) as [req'|res] eqn:Ha;
      [left | right; now exists res].
    destruct (authenticateToken_next env req w req' Ha) as [u ->].
    now exists u. }
  split; [|split].
  - destruct (Bool.bool_dec (protected req) true) as [Hp|Hp].
    + destruct Hcase as [[u Ha]|[res Ha]].
      * now rewrite (Hpass u Hp Ha).
      * now rewrite (serve_rejected env req w res Hp Ha).
    + apply Bool.not_true_is_false in Hp. now rewrite Hopen.
  - intros Hp. now rewrite Hopen.
  - intros u Hp Hok. now rewrite (Hpass u Hp Hok).
Qed.

(** ** The earlier server: registering, then logging in *)

Lemma find_none_everywhere {A} (p : A -> bool) (l : list A) :
  (forall x, In x l -> p x = false) -> find p l = None.
Proof.
  induction l as [|y l IH]; intros H; simpl; [reflexivity|].
  rewrite (H y (or_introl eq_refl)). apply IH. intros x Hx. apply H. now right.
Qed.

Lemma legacy_serve_register env h b w :
  Legacy.serve env (register_request h b) w =
    (let (o, w') := Legacy.post_api_register env (register_request h b) w in
     match o with
     | Next req' => dispatch (skipn 2 Legacy.app) env req' w'
     | Done res => (res, w')
     end).
Proof.
  unfold Legacy.serve, Legacy.app, register_request.
  layer. layer. reflexivity.
Qed.

Lemma legacy_serve_login env h b w :
  Legacy.serve env (login_request h b) w =
    (let (o, w') := Legacy.post_api_login env (login_request h b) w in
     match o with
     | Next req' => dispatch (skipn 1 Legacy.app) env req' w'
     | Done res => (res, w')
     end).
Proof.
  unfold Legacy.serve, Legacy.app, login_request.
  layer. reflexivity.
Qed.

(** X18. On the earlier server ([express.js]) a registration with an email that
    is not in the users file is answered 200 "Registration successful";
    logging in afterwards with the same email and password is answered 200
    "Login successful" and writes nothing; registering the same email again
    is answered 400 "User already exists" and leaves the users file as the
    first registration left it. *)
Theorem X18_legacy_login_after_register env1 env2 env3 h1 h2 h3 b w :
  find (same_email (b_email b)) (load USERS_FILE (disk w)) = None ->
  let w1 := snd (Legacy.serve env1 (register_request h1 b) w) in
  fst (Legacy.serve env1 (register_request h1 b) w) =
    mkResponse 200 (J_message true "Registration successful") /\
  Legacy.serve env2 (login_request h2 b) w1 =
    (mkResponse 200 (J_message true "Login successful"),
     mkWorld (disk w1) (trace w1 ++ [Read USERS_FILE])) /\
  Legacy.serve env3 (register_request h3 b) w1 =
    (mkResponse 400 (J_message false "User already exists"),
     mkWorld (disk w1) (trace w1 ++ [Read USERS_FILE])).
Proof.
  intros Hnew w1.
  set (user := mkUser None (b_name b) (b_email b) (b_password b)
                      (b_contactNumber b) (b_address b) 0).
  assert (Hreg : Legacy.serve env1 (register_request h1 b) w =
            (mkResponse 200 (J_message true "Registration successful"),
             mkWorld (save USERS_FILE (load USERS_FILE (disk w) ++ [user])%list (disk w))
                     (trace w ++ [Read USERS_FILE; Write USERS_FILE]))).
  { rewrite legacy_serve_register.
    unfold Legacy.post_api_register, bind, ret, send, readJSONFile, writeJSONFile.
    cbn [disk trace fst snd body register_request]. rewrite Hnew.
    cbn [disk trace fst snd]. now rewrite <- app_assoc. }
  assert (Husers : load USERS_FILE (disk w1) =
            (load USERS_FILE (disk w) ++ [user])%list)
    by (unfold w1; rewrite Hreg; reflexivity).
  split; [now rewrite Hreg|]. split.
  - rewrite legacy_serve_login.
    unfold Legacy.post_api_login, bind, ret, send, readJSONFile.
    cbn [disk trace fst snd body login_request]. rewrite Husers.
    rewrite (find_app_new _ _ user).
    + reflexivity.
    + apply find_none_everywhere. intros u Hu.
      pose proof (find_none _ _ Hnew u Hu) as Hne.
      unfold same_email in Hne. now rewrite Hne.
    + unfold user. cbn [u_email u_password]. now rewrite !String.eqb_refl.
  - rewrite legacy_serve_register.
    unfold Legacy.post_api_register, bind, ret, send, readJSONFile.
    cbn [disk trace fst snd body register_request]. rewrite Husers.
    rewrite (find_app_new _ _ user Hnew).
    + reflexivity.
    + unfold same_email, user. cbn [u_email]. apply String.eqb_refl.
Qed.

End Properties.

(** * Concrete runs *)

Section Runs.
#[local] Existing Instance Sample.libs.

(** ** The two offices are well formed *)

Lemma office_well_formed : well_formed (disk office).
Proof.
  constructor.
  - constructor.
  - repeat constructor. intros [].
  - intros i c [].
  - intros i [].
  - split; vm_compute; discriminate.
  - intros c [<-|[]]. split; reflexivity.
Qed.

Lemma busy_office_well_formed : well_formed (disk busy_office).
Proof.
  constructor.
  - repeat constructor; simpl; intuition discriminate.
  - repeat constructor; simpl; intuition discriminate.
  - intros i c [<-|[<-|[<-|[]]]] [<-|[<-|[]]]; simpl; intros H;
      first [reflexivity | discriminate].
  - intros i [<-|[<-|[<-|[]]]]; simpl; eauto.
  - split; vm_compute; discriminate.
  - intros c [<-|[<-|[]]]; split; reflexivity.
Qed.

(** ** C1 *)

(** C1, counterexample. In the office, where the statistics hold, the five
    operations of [drift] (all by Acme's owner, all naming Acme; served as
    HTTP requests they leave the same disk) end with no invoice in the file
    while Acme's record says [invoiceCount = 1], [totalPaid = 5]: the third
    invoice reused id 2, and deleting id 2 removed two invoices while
    subtracting one. *)
Lemma C1_counterexample_id_reuse :
  aggregates_hold (disk office) /\
  disk (serve_all noon drift_requests office) = disk (run_ops drift office) /\
  load INVOICES_FILE (disk (run_ops drift office)) = [] /\
  load CLIENTS_FILE (disk (run_ops drift office)) =
    [mkClient 1 (Some 1) "Acme" "a@x.com" "1 Road" (Num 1) (Num 5) 960] /\
  ~ aggregates_hold (disk (run_ops drift office)).
Proof.
  split; [|split; [|split; [|split]]].
  - intros c [<-|[]]. split; reflexivity.
  - vm_compute. reflexivity.
  - vm_compute. reflexivity.
  - vm_compute. reflexivity.
  - intros H.
    destruct (H (mkClient 1 (Some 1) "Acme" "a@x.com" "1 Road" (Num 1) (Num 5) 960))
      as [Hcount _].
    + vm_compute. now left.
    + vm_compute in Hcount. discriminate.
Qed.

(** C1 in the busy office, where three invoices of two owners are on file:
    Alice bills Acme 100 and then deletes her invoice 1. *)
Lemma C1_witness_bill_and_cancel :
  aggregates_hold (disk (run_ops (firstn 2 bill_and_cancel) busy_office)).
Proof.
  apply C1_aggregates_follow_the_invoices.
  - exact busy_office_well_formed.
  - split; [|split; exact I]. split; [|split; [|split]].
    + simpl. intuition discriminate.
    + now exists 100.
    + split; vm_compute; discriminate.
    + intros c [<-|[<-|[]]] H; simpl in *; [reflexivity | discriminate].
Defined.

(** ** C2, C3 *)

(** C2 in the busy office, when Bob asks to delete invoice 1, which is
    Alice's: the invoices file holds three invoices, one of them Bob's. *)
Lemma C2_witness_bob_deletes_nothing :
  let req := request_of (InvoiceDelete "1") (header_of noon bob) Sample.no_body in
  fst (serve noon req busy_office) = mkResponse 404 (J_error "Invoice not found") /\
  disk (snd (serve noon req busy_office)) = disk busy_office /\
  trace (snd (serve noon req busy_office)) = [Read INVOICES_FILE; Read CLIENTS_FILE].
Proof.
  apply (C2_delete_unowned_invoice_is_not_found noon (header_of noon bob)
           Sample.no_body "1" bob_claims busy_office).
  - vm_compute. reflexivity.
  - intros inv [<-|[<-|[<-|[]]]] H; vm_compute in H; discriminate.
Defined.

(** C2, counterexample: the earlier server ([express.js]).  A request that
    carries no credential asks to delete invoice 7, which is not in the
    file: the answer is 200 success, not a refusal, and the invoices file is
    written.  The same request for invoice 1, which is Alice's, is answered
    200 too: the invoice is gone and Acme's statistics are lowered. *)
Lemma C2_counterexample_legacy_delete :
  let missing := Legacy.serve noon (delete_request "7") busy_office in
  let other := Legacy.serve noon (delete_request "1") busy_office in
  (forall inv, In inv (load INVOICES_FILE (disk busy_office)) -> i_id inv <> 7) /\
  fst missing = mkResponse 200 J_success /\
  trace (snd missing) =
    [Read INVOICES_FILE; Read CLIENTS_FILE; Write INVOICES_FILE] /\
  fst other = mkResponse 200 J_success /\
  map i_id (load INVOICES_FILE (disk (snd other))) = [2; 3] /\
  load CLIENTS_FILE (disk (snd other)) =
    [mkClient 1 (Some 1) "Acme" "a@x.com" "1 Road" (Num 1) (Num 20) 960;
     mkClient 2 (Some 2) "Globex" "g@x.com" "9 Avenue" (Num 1) (Num 7) 970].
Proof.
  split; [|split; [|split; [|split; [|split]]]]; try (vm_compute; reflexivity).
  intros inv [<-|[<-|[<-|[]]]]; discriminate.
Qed.

(** C3 on an invoice creation whose header has no token after [Bearer]. *)
Lemma C3_witness_no_token :
  let req := request_of InvoiceCreate (Some "Bearer") (invoice_body 1 100) in
  let res := mkResponse 401 (J_error "Access token required") in
  serve noon req office = (res, office) /\ (status res = 401 \/ status res = 403).
Proof.
  apply C3_token_checked_before_any_data_access; reflexivity.
Defined.

(** C3, counterexample: the earlier server ([express.js]) checks no
    credential.  A request without an [Authorization] header is given the
    client list, for which the clients file is read; another deletes client
    1, and the clients file is written. *)
Lemma C3_counterexample_legacy_no_credential :
  let list := mkRequest GET ["api"; "clients"] None Sample.no_body None [] in
  let delete := mkRequest DELETE ["api"; "clients"; "1"] None Sample.no_body None [] in
  Legacy.serve noon list office =
    (mkResponse 200 (J_clients [acme]), mkWorld (disk office) [Read CLIENTS_FILE]) /\
  fst (Legacy.serve noon delete office) = mkResponse 200 J_success /\
  load CLIENTS_FILE (disk (snd (Legacy.serve noon delete office))) = [] /\
  trace (snd (Legacy.serve noon delete office)) =
    [Read CLIENTS_FILE; Write CLIENTS_FILE].
Proof. repeat split; vm_compute; reflexivity. Qed.

(** ** C4, C5, C6 *)

(** C4 when Carol registers in the office. *)
Lemma C4_witness_carol_registers :
  let out :=
    serve noon (register_request None
                  (register_body "Carol" "Carol@Example.com" "opensesame"))
          office in
  users_file (disk (snd out)) =
    Some [alice; bob;
          mkUser (Some 3) "Carol" "carol@example.com"
                 (bcrypt_hash "s4lt" "opensesame" 10)
                 "5550000" "7 Elm Street" 1000].
Proof.
  exact (proj1 (C4_register_stores_the_bcrypt_hash noon None
                  (register_body "Carol" "Carol@Example.com" "opensesame")
                  office eq_refl eq_refl)).
Defined.

(** C4, counterexample: the earlier server ([express.js]) writes the
    password as it was sent.  After Carol has registered there, her record
    in the users file holds "opensesame". *)
Lemma C4_counterexample_legacy_raw_password :
  let out :=
    Legacy.serve noon
      (register_request None
         (register_body "Carol" "Carol@Example.com" "opensesame"))
      office in
  fst out = mkResponse 200 (J_message true "Registration successful") /\
  users_file (disk (snd out)) =
    Some [alice; bob;
          mkUser None "Carol" "Carol@Example.com" "opensesame"
                 "5550000" "7 Elm Street" 0].
Proof. split; vm_compute; reflexivity. Qed.

(** C5 on Carol's address written in two ways. *)
Lemma C5_witness_same_email_other_case :
  let first := register_body "Carol" "Carol@Example.com" "opensesame" in
  let second := register_body "Caroline" "CAROL@example.COM" "letmein123" in
  let w1 := snd (serve noon (register_request None first) office) in
  let out := serve noon (register_request None second) w1 in
  fst out = mkResponse 409 (J_error "User already exists") /\
  disk (snd out) = disk w1 /\
  trace (snd out) = (trace w1 ++ [Read USERS_FILE])%list.
Proof.
  apply (C5_second_registration_conflicts noon noon None _ None _ office).
  - intros a b H. exact H.
  - reflexivity.
  - reflexivity.
  - reflexivity.
Defined.

(** C5, counterexample: the earlier server ([express.js]) compares
    addresses as sent.  After "Carol@Example.com" has registered there,
    "carol@example.com" registers too: the answer is 200, and the users file
    holds both records. *)
Lemma C5_counterexample_legacy_case_variant :
  let first := register_request None
                 (register_body "Carol" "Carol@Example.com" "opensesame") in
  let second := register_request None
                  (register_body "Carol" "carol@example.com" "opensesame") in
  let w1 := snd (Legacy.serve noon first office) in
  fst (Legacy.serve noon second w1) =
    mkResponse 200 (J_message true "Registration successful") /\
  map u_email (load USERS_FILE (disk (snd (Legacy.serve noon second w1)))) =
    ["alice@example.com"; "bob@example.com"; "Carol@Example.com";
     "carol@example.com"].
Proof. split; vm_compute; reflexivity. Qed.

(** C6 on an unknown address and on Alice's with a wrong password. *)
Lemma C6_witness_unknown_and_wrong :
  let unknown := login_request None (login_body "nobody@example.com" "whatever") in
  let wrong := login_request None (login_body "alice@example.com" "secret2") in
  serve noon unknown office = serve noon wrong office /\
  fst (serve noon unknown office) = mkResponse 401 (J_error "Invalid credentials").
Proof.
  apply (C6_login_failures_are_indistinguishable noon None _ None _ office alice);
    reflexivity.
Defined.

(** ** C7 *)

(** C7 (what the code does). Bob, whose token passes, asks for the
    client list of an office where Alice owns Acme and Bob owns Globex: the
    answer lists both, Acme included, which is not Bob's.  The dashboard,
    for the same caller and state, counts Bob's single client. *)
Theorem C7_client_list_includes_other_owners :
  let list := request_of ClientList (header_of noon bob) Sample.no_body in
  let board := request_of Dashboard (header_of noon bob) Sample.no_body in
  fst (serve noon list shared_office) = mkResponse 200 (J_clients [acme; globex]) /\
  owned_client bob_claims acme = false /\
  exists st,
    fst (serve noon board shared_office) = mkResponse 200 (J_stats st) /\
    totalClients st = 1%nat.
Proof.
  split; [|split].
  - vm_compute. reflexivity.
  - reflexivity.
  - eexists. split; vm_compute; reflexivity.
Qed.

(** ** C8 *)

(** C8, counterexample. Alice, whose token passes, posts a valid invoice
    for client 99; no client has id 99.  The request is not rejected: the
    answer is 201 and the invoice is in the file, naming client 99; the
    clients file is as before. *)
Lemma C8_counterexample_unknown_client :
  let req := request_of InvoiceCreate (header_of noon alice) (invoice_body 99 40) in
  let out := serve noon req office in
  (forall c, In c (load CLIENTS_FILE (disk office)) -> c_id c <> 99) /\
  status (fst out) = 201 /\
  map i_clientId (load INVOICES_FILE (disk (snd out))) = [99] /\
  clients_file (disk (snd out)) = clients_file (disk office).
Proof.
  split; [|split; [|split]].
  - intros c [<-|[]]. discriminate.
  - vm_compute. reflexivity.
  - vm_compute. reflexivity.
  - vm_compute. reflexivity.
Qed.

(** C8 on the same request: the first invoice of the file gets id 1. *)
Lemma C8_witness_first_invoice :
  let b := invoice_body 99 40 in
  let req := request_of InvoiceCreate (header_of noon alice) b in
  let out := serve noon req office in
  let inv := new_invoice noon alice_claims (validateInvoice_body b) [] in
  fst out = mkResponse 201 (J_invoice inv) /\
  load INVOICES_FILE (disk (snd out)) = map stringify_invoice [inv] /\
  i_clientId inv = 99 /\
  ((forall c, In c [acme] -> c_id c <> 99) ->
   clients_file (disk (snd out)) = clients_file (disk office)) /\
  (b_id b = None -> i_id inv = 1).
Proof.
  apply (C8_invoice_create_accepts_any_client_id noon (header_of noon alice)
           (invoice_body 99 40) alice_claims office).
  - vm_compute. reflexivity.
  - reflexivity.
Defined.

(** ** C9 *)

(** C9 on the token Alice gets at noon, one hour and 25 hours later. *)
Lemma C9_witness_alice_token :
  let req := request_of Dashboard (header_of noon alice) Sample.no_body in
  authenticateToken (mkEnv (1000 + 1 * 3600) "") req office =
    (Next (set_user req alice_claims), office) /\
  authenticateToken (mkEnv (1000 + 25 * 3600) "") req office =
    (Done (mkResponse 403 (J_error "Invalid or expired token")), office).
Proof.
  assert (Hne : issued noon alice <> "") by (vm_compute; discriminate).
  assert (Hread : jwt_decode (issued noon alice) JWT_SECRET =
                  Some (issued_claims noon alice)) by (vm_compute; reflexivity).
  assert (Hhdr : bearer (header_of noon alice) = Some (issued noon alice))
    by (vm_compute; reflexivity).
  destruct (C9_token_is_valid_for_24_hours noon alice
              (request_of Dashboard (header_of noon alice) Sample.no_body)
              office Hread Hhdr Hne)
    as (_ & _ & _ & _ & _ & _ & H1 & H25 & _).
  split; [apply H1 | apply H25].
Defined.

(** ** C10 *)

(** A clients file that has drifted from the invoices: Acme's record has no
    [invoiceCount] and says [totalPaid = 7], while Alice has two invoices
    for Acme, of 10 and 20.  The dashboard reports 0 and 7 for Acme, and 30
    as revenue. *)
Example dashboard_reports_stored_fields :
  let drifted :=
    mkWorld (mkStore
               (Some [mkClient 1 (Some 1) "Acme" "a@x.com" "1 Road"
                               Undefined (Num 7) 960])
               (Some [new_invoice noon alice_claims (invoice_body 1 10) [];
                      new_invoice noon alice_claims (invoice_body 1 20)
                                  [new_invoice noon alice_claims
                                               (invoice_body 1 10) []]])
               (Some [alice; bob])) [] in
  fst (serve noon (request_of Dashboard (header_of noon alice) Sample.no_body)
             drifted) =
    mkResponse 200 (J_stats
      (mkStats 1 2 (Num 20) (Num 30) [mkClientSummary "Acme" "a@x.com" 0 7])).
Proof. vm_compute. reflexivity. Qed.

(** ** Whole-stack properties on the office *)

(** X1 when Alice logs in: the users file is read, the two data files are
    not. *)
Lemma X1_witness_login_leaves_data :
  data_untouched office
    (snd (serve noon (login_request None (login_body "alice@example.com" "secret1"))
                office)).
Proof.
  apply X1_no_data_access_without_token. left. reflexivity.
Defined.

(** X2 on Alice's dashboard. *)
Lemma X2_witness_dashboard :
  nothing_written busy_office
    (snd (serve noon (request_of Dashboard (header_of noon alice) Sample.no_body)
                busy_office)).
Proof.
  apply X2_get_requests_write_nothing. reflexivity.
Defined.

(** X4 when Carol registers in the office, where Alice is user 1 and Bob
    user 2. *)
Lemma X4_witness_carol_is_third :
  users_numbered
    (disk (snd (serve noon (register_request None carol_body) office))) /\
  NoDup (map u_id
    (load USERS_FILE
       (disk (snd (serve noon (register_request None carol_body) office))))).
Proof.
  apply X4_user_ids_stay_numbered. reflexivity.
Defined.

(** X5 on a client whose name is one letter long, whose email has no [@]
    and whose address is four letters long. *)
Lemma X5_witness_bad_client :
  serve noon (request_of ClientCreate (header_of noon alice)
                (client_body "A" "nowhere" "1 Rd")) office =
    (mkResponse 400 (J_validation ["name"; "email"; "address"]), office).
Proof.
  change ["name"; "email"; "address"]
    with (validateClient_errors (client_body "A" "nowhere" "1 Rd")).
  apply (proj1 (X5_invalid_create_is_rejected_before_data noon
                  (header_of noon alice) (client_body "A" "nowhere" "1 Rd")
                  alice_claims office)).
  - vm_compute. reflexivity.
  - discriminate.
Defined.

(** X6 on a login with a five-letter password. *)
Lemma X6_witness_short_password :
  serve noon (login_request None (login_body "alice@example.com" "short"))
        office =
    (mkResponse 400 (J_validation ["password"]), office).
Proof.
  change ["password"]
    with (validateLogin_errors (login_body "alice@example.com" "short")).
  apply (proj1 (X6_invalid_credentials_form_is_rejected noon None
                  (login_body "alice@example.com" "short") office)).
  discriminate.
Defined.

(** X7 when Carol registers at noon and logs in an hour later. *)
Lemma X7_witness_carol_logs_in :
  let w1 := snd (serve noon (register_request None carol_body) office) in
  let carol := new_user noon (validateRegister_body carol_body) [alice; bob] in
  fst (serve one_hour_later (login_request None carol_body) w1) =
    mkResponse 200
      (J_session (issued one_hour_later carol)
                 (mkUserView (Some 3) "carol@example.com" "Carol")) /\
  disk (snd (serve one_hour_later (login_request None carol_body) w1)) = disk w1.
Proof.
  refine (X7_login_after_register_succeeds noon one_hour_later None None
            carol_body office _ _ _); vm_compute; reflexivity.
Defined.

(** X8 on Alice's invoices in the busy office: the first and the third of
    the file. *)
Lemma X8_witness_alice_lists :
  let req := request_of InvoiceList (header_of noon alice) Sample.no_body in
  exists l,
    serve noon req busy_office =
      (mkResponse 200 (J_invoices l),
       mkWorld (disk busy_office) (trace busy_office ++ [Read INVOICES_FILE])) /\
    l = filter (fun inv => optZ_eqb (i_userId inv) (cl_id alice_claims))
               (load INVOICES_FILE (disk busy_office)) /\
    (forall inv, In inv l <->
       In inv (load INVOICES_FILE (disk busy_office)) /\
       i_userId inv = cl_id alice_claims).
Proof.
  apply (X8_invoice_list_is_the_callers noon (header_of noon alice)
           Sample.no_body alice_claims busy_office).
  vm_compute. reflexivity.
Defined.

(** X9 when Alice deletes Acme. *)
Lemma X9_witness_alice_deletes_acme :
  let req := request_of (ClientDelete "1") (header_of noon alice) Sample.no_body in
  let w' := snd (serve noon req shared_office) in
  fst (serve noon req shared_office) = mkResponse 200 J_success /\
  load CLIENTS_FILE (disk w') =
    map stringify_client
        (filter (fun c' => negb (c_id c' =? c_id acme))
                (load CLIENTS_FILE (disk shared_office))) /\
  (forall c', In c' (load CLIENTS_FILE (disk w')) -> c_id c' <> c_id acme) /\
  invoices_file (disk w') = invoices_file (disk shared_office) /\
  users_file (disk w') = users_file (disk shared_office).
Proof.
  apply (X9_client_delete_removes_the_id noon (header_of noon alice)
           Sample.no_body "1" alice_claims shared_office acme).
  - vm_compute. reflexivity.
  - simpl. now left.
  - reflexivity.
  - reflexivity.
Defined.

(** X10 when Bob asks to delete Acme, which is Alice's. *)
Lemma X10_witness_bob_cannot_delete_acme :
  let req := request_of (ClientDelete "1") (header_of noon bob) Sample.no_body in
  serve noon req shared_office =
    (mkResponse 404 (J_error "Client not found"),
     mkWorld (disk shared_office) (trace shared_office ++ [Read CLIENTS_FILE])).
Proof.
  apply (X10_client_delete_of_unowned_is_not_found noon (header_of noon bob)
           Sample.no_body "1" bob_claims shared_office).
  - vm_compute. reflexivity.
  - intros c [<-|[<-|[]]] H; simpl in *; discriminate.
Defined.

(** X11 when Alice deletes Acme twice. *)
Lemma X11_witness_alice_deletes_acme_twice :
  let req := request_of (ClientDelete "1") (header_of noon alice) Sample.no_body in
  let w1 := snd (serve noon req shared_office) in
  fst (serve noon req shared_office) = mkResponse 200 J_success /\
  fst (serve noon req w1) = mkResponse 404 (J_error "Client not found") /\
  disk (snd (serve noon req w1)) = disk w1.
Proof.
  apply (X11_client_delete_twice noon (header_of noon alice)
           Sample.no_body "1" alice_claims shared_office acme).
  - vm_compute. reflexivity.
  - simpl. now left.
  - reflexivity.
  - reflexivity.
Defined.

(** X12 when Alice adds Initech in the busy office and looks at her
    dashboard an hour later. *)
Lemma X12_witness_initech :
  let b := client_body "Initech" "Info@Initech.com" "4 Office Park" in
  let create := request_of ClientCreate (header_of noon alice) b in
  let board := request_of Dashboard (header_of noon alice) Sample.no_body in
  let w1 := snd (serve noon create busy_office) in
  exists before after,
    fst (serve one_hour_later board busy_office) = mkResponse 200 (J_stats before) /\
    fst (serve one_hour_later board w1) = mkResponse 200 (J_stats after) /\
    status (fst (serve noon create busy_office)) = 201 /\
    totalClients after = S (totalClients before) /\
    clientSummary after =
      (clientSummary before ++
       [mkClientSummary "Initech" "info@initech.com" 0 0])%list /\
    totalInvoices after = totalInvoices before /\
    totalTax after = totalTax before /\
    totalRevenue after = totalRevenue before.
Proof.
  refine (X12_created_client_shows_on_dashboard noon one_hour_later
            (header_of noon alice) (header_of noon alice)
            (client_body "Initech" "Info@Initech.com" "4 Office Park")
            Sample.no_body alice_claims busy_office _ _ _);
    vm_compute; reflexivity.
Defined.

(** X13 in the busy office, when Alice bills Acme 100 (the invoice takes
    id 4) and cancels the invoice. *)
Lemma X13_witness_bill_and_cancel :
  let w2 := step (step busy_office
                    (Create noon alice_claims (create_request (invoice_body 1 100))))
                 (Delete one_hour_later alice_claims (delete_request "4")) in
  load CLIENTS_FILE (disk w2) = load CLIENTS_FILE (disk busy_office) /\
  load INVOICES_FILE (disk w2) =
    map stringify_invoice (load INVOICES_FILE (disk busy_office)) /\
  users_file (disk w2) = users_file (disk busy_office).
Proof.
  apply X13_create_then_delete_restores.
  - exact busy_office_well_formed.
  - split; [|split; [|split]].
    + simpl. intuition discriminate.
    + now exists 100.
    + split; vm_compute; discriminate.
    + intros c [<-|[<-|[]]] H; simpl in *; [reflexivity | discriminate].
  - reflexivity.
Defined.

(** X14 in the busy office, when Bob bills Acme, which is Alice's, 100
    (the invoice takes id 4) and cancels the invoice: Acme, which two
    invoices of 10 and 20 name, is left with [invoiceCount = 1] and
    [totalPaid = -70]. *)
Lemma X14_witness_bob_bills_acme :
  let busy_acme :=
    mkClient 1 (Some 1) "Acme" "a@x.com" "1 Road" (Num 2) (Num 30) 960 in
  let w1 := step busy_office
              (Create noon bob_claims (create_request (invoice_body 1 100))) in
  let w2 := step w1 (Delete one_hour_later bob_claims (delete_request "4")) in
  let c' := invoice_deleted (Num 100) busy_acme in
  load CLIENTS_FILE (disk w1) = load CLIENTS_FILE (disk busy_office) /\
  load INVOICES_FILE (disk w2) =
    map stringify_invoice (load INVOICES_FILE (disk busy_office)) /\
  In c' (load CLIENTS_FILE (disk w2)) /\
  c_invoiceCount c' =
    Num (count_of (c_id busy_acme) (load INVOICES_FILE (disk w2)) - 1) /\
  c_totalPaid c' =
    Num (paid_of (c_id busy_acme) (load INVOICES_FILE (disk w2)) - 100).
Proof.
  intros busy_acme.
  apply (X14_stranger_create_then_delete_lowers_statistics noon one_hour_later
           bob_claims (create_request (invoice_body 1 100)) (delete_request "4")
           busy_office busy_acme 100).
  - exact busy_office_well_formed.
  - simpl. now left.
  - reflexivity.
  - discriminate.
  - simpl. intuition discriminate.
  - reflexivity.
  - split; vm_compute; discriminate.
  - reflexivity.
Defined.

(** X15 on a header whose first word is not [Bearer] and which goes on
    after the token. *)
Lemma X15_witness_any_scheme :
  let req := mkRequest GET ["api"; "clients"]
               (Some ("Basic " ++ issued noon alice ++ " and more"))
               Sample.no_body None [] in
  authenticateToken noon req office =
    match jwt_verify (issued noon alice) JWT_SECRET (now noon) with
    | inl _ => (Done (mkResponse 403 (J_error "Invalid or expired token")), office)
    | inr u => (Next (set_user req u), office)
    end.
Proof.
  intros req.
  apply (proj1 (X15_token_is_the_second_word noon req office)
           "Basic" (issued noon alice) " and more").
  - reflexivity.
  - reflexivity.
  - reflexivity.
  - discriminate.
  - right. now exists "and more".
Defined.

(** X16 on Alice's dashboard in the busy office. *)
Lemma X16_witness_alice_dashboard :
  let req := request_of Dashboard (header_of noon alice) Sample.no_body in
  exists st,
    fst (serve noon req busy_office) = mkResponse 200 (J_stats st) /\
    totalRevenue st =
      Num (fold_right Z.add 0 (map cs_totalPaid (clientSummary st))) /\
    Z.of_nat (totalInvoices st) =
      fold_right Z.add 0 (map cs_invoiceCount (clientSummary st)).
Proof.
  apply (X16_dashboard_figures_agree noon (header_of noon alice)
           Sample.no_body alice_claims busy_office).
  - vm_compute. reflexivity.
  - exact busy_office_well_formed.
  - intros inv [<-|[<-|[<-|[]]]] H; try discriminate;
      (eexists; split; [simpl; left; reflexivity | split; reflexivity]).
Defined.

(** X17 when Alice, with her token, sends PUT /api/clients/1. *)
Lemma X17_witness_put_client :
  snd (serve noon put_client office) = office /\
  (protected put_client = false ->
   fst (serve noon put_client office) =
     mkResponse 404 (J_error "Route not found")) /\
  (forall u, protected put_client = true ->
   fst (authenticateToken noon put_client office) = Next (set_user put_client u) ->
   fst (serve noon put_client office) =
     mkResponse 404 (J_error "Route not found")).
Proof.
  apply X17_put_requests_find_no_route. reflexivity.
Defined.

(** X18 when Carol registers with the earlier server, logs in, and
    registers again. *)
Lemma X18_witness_legacy_carol :
  let w1 := snd (Legacy.serve noon (register_request None carol_body) office) in
  fst (Legacy.serve noon (register_request None carol_body) office) =
    mkResponse 200 (J_message true "Registration successful") /\
  Legacy.serve one_hour_later (login_request None carol_body) w1 =
    (mkResponse 200 (J_message true "Login successful"),
     mkWorld (disk w1) (trace w1 ++ [Read USERS_FILE])) /\
  Legacy.serve one_hour_later (register_request None carol_body) w1 =
    (mkResponse 400 (J_message false "User already exists"),
     mkWorld (disk w1) (trace w1 ++ [Read USERS_FILE])).
Proof.
  apply (X18_legacy_login_after_register noon one_hour_later one_hour_later
           None None None carol_body office).
  reflexivity.
Defined.

(** ** Rounding *)

(** From 2^53 on, sums and differences are rounded as doubles are:
    2^53 + 1 is 2^53, (2^53 + 2) + 1 is 2^53 + 4 and (2^53 + 2) - 1 is 2^53
    (ties go to the even significand); 2^1023 + 2^1023 is not finite. *)
Example doubles_round :
  js_add (Num two53) (Num 1) = Num two53 /\
  js_add (Num (two53 + 2)) (Num 1) = Num (two53 + 4) /\
  js_sub (Num (two53 + 2)) (Num 1) = Num two53 /\
  js_add (Num (2 ^ 1023)) (Num (2 ^ 1023)) = NaN.
Proof. repeat split; vm_compute; reflexivity. Qed.

(** Outside the exact range the statistics drift without any id being
    reused.  In the office Alice bills Acme 2^53, then 1 (the sum is rounded
    to 2^53), then deletes the first invoice: Acme's record says
    [totalPaid = 0] while the invoice that is left has total 1.  The second
    creation is not admissible: the totals add up to more than 2^53. *)
Example rounding_breaks_the_statistics :
  let ops :=
    [ Create noon alice_claims (create_request (invoice_body 1 two53));
      Create noon alice_claims (create_request (invoice_body 1 1));
      Delete noon alice_claims (delete_request "1") ] in
  map i_total (load INVOICES_FILE (disk (run_ops ops office))) = [Num 1] /\
  map c_totalPaid (load CLIENTS_FILE (disk (run_ops ops office))) = [Num 0] /\
  ~ admissible_run office ops.
Proof.
  split; [|split]; try (vm_compute; reflexivity).
  intros (_ & (_ & _ & [Hweight _] & _) & _).
  vm_compute in Hweight. now apply Hweight.
Qed.

(** The dashboard adds the totals up one rounded addition after the other:
    with invoices of 2^53 and 1 the revenue it reports is 2^53. *)
Example dashboard_revenue_is_rounded :
  let w :=
    mkWorld (mkStore (Some [acme])
                     (Some [invoice_of 1 1 1 two53; invoice_of 2 1 1 1])
                     (Some [alice; bob])) [] in
  exists st,
    fst (serve noon (request_of Dashboard (header_of noon alice) Sample.no_body) w) =
      mkResponse 200 (J_stats st) /\
    totalRevenue st = Num two53.
Proof. eexists. split; vm_compute; reflexivity. Qed.

End Runs.
